(** * Bitcoin peg: signatory selection, P2SS witness script, disbursal
      builder and the peg-zone transaction handlers

    The development follows three source files of the repository:
    - [Reserve]   : reserve.ts  (uint, getVotingPowerThreshold,
                    createWitnessScript, getSignatorySet, buildOutgoingTx,
                    createOutput);
    - [Peg]       : index.js    (initializer, txHandler, headersTx, depositTx,
                    signatoryKeyTx);
    - [Signatory] : signatory.ts (the part of commitPubkey that runs before
                    the message is sent).

    JavaScript numbers are modelled by [Z]: every number the code handles
    here is an integer (voting powers, satoshi amounts, lengths), and within
    the safe-integer range the double arithmetic of the source is exact.
    Buffers are lists of bytes, strings are [string], JS objects used as
    dictionaries are [gmap string _]; the validator map is kept as the list
    of its entries in property order, which is what [Object.entries] reads. *)

From Stdlib Require Import ZArith Lia List String Ascii HexString.
From Stdlib Require Import Sorted Permutation OrdersEx.
From Stdlib.Strings Require Byte.
From stdpp Require Import gmap strings list sorting.

Open Scope Z_scope.

(** ** Thrown errors *)

(** One constructor per [throw Error(...)] of the sources, plus the
    [TypeError] JavaScript raises on a property read of [undefined] and one
    constructor for an error raised inside an external library. *)
Inductive error : Type :=
  | NumberMustBeInteger        (* 'Number must be an integer' *)
  | NumberOutOfRange           (* 'Number must be >= 0 and < 2^32' *)
  | TypeError                  (* property access on undefined *)
  | OutputExceedsInput         (* 'Output amount exceeds input amount'; InsufficientFunds *)
  | OutputBelowFee             (* 'Output is not large enough to pay fee'; OutputBelowFee *)
  | UnknownTransactionType     (* 'Unknown transaction type' *)
  | AlreadyProcessed           (* 'Deposit transaction has already been processed' *)
  | ExpectedOneTxid            (* 'Expected exactly one txid included in proof' *)
  | ProofMismatch              (* 'Merkle proof does not match given transaction' *)
  | InvalidSignatoryIndex      (* 'Invalid signatory index' *)
  | InvalidSignatoryKeyLength  (* 'Invalid signatory key length' *)
  | InvalidSignature           (* 'Invalid signature' *)
  | InvalidSignatoryPublicKey  (* 'Invalid signatory public key' *)
  | ValidatorKeyNotFound       (* 'Given validator key not found in validator set' *)
  | LibraryError (msg : string) (* thrown by an imported package *).

Inductive result (A : Type) : Type :=
  | Ok (a : A)
  | Throw (e : error).
Arguments Ok {A} a.
Arguments Throw {A} e.

Definition rbind {A B : Type} (r : result A) (k : A -> result B) : result B :=
  match r with
  | Ok a => k a
  | Throw e => Throw e
  end.

Notation "x <-! r ;; k" := (rbind r (fun x => k))
  (at level 100, r at next level, right associativity).

(** [xs.map(f)] for an [f] that may throw: elements are visited in order
    and the first exception ends the loop. *)
Fixpoint mapR {A B : Type} (f : A -> result B) (l : list A) : result (list B) :=
  match l with
  | [] => Ok []
  | x :: l' => y <-! f x ;; ys <-! mapR f l' ;; Ok (y :: ys)
  end.

Definition Buffer : Type := list Byte.byte.

#[global] Instance byte_eq_decision : EqDecision Byte.byte.
Proof.
  intros x y. destruct (Byte.eqb x y) eqn:E.
  - left. by apply Byte.byte_dec_bl.
  - right. by apply Byte.eqb_false.
Defined.

(** ** [Array.prototype.sort] with a comparator

    A stable insertion sort: [x] is placed before the first [y] with
    [cmp x y <= 0].  For a comparator that is a total order on the elements
    (the case in [getSignatorySet], whose keys are distinct) every correct
    sort returns the same array. *)
Fixpoint sort_insert {A : Type} (cmp : A -> A -> Z) (x : A) (l : list A) : list A :=
  match l with
  | [] => [x]
  | y :: l' => if cmp x y <=? 0 then x :: y :: l' else y :: sort_insert cmp x l'
  end.

Definition Array_sort {A : Type} (cmp : A -> A -> Z) (l : list A) : list A :=
  foldr (sort_insert cmp) [] l.

(** [Math.ceil(a / b)] on integers, [b > 0]. *)
Definition Math_ceil_div (a b : Z) : Z := - ((- a) / b).

(** ** Hexadecimal text *)

Definition hexDigit (n : N) : ascii :=
  match n with
  | 0 => "0" | 1 => "1" | 2 => "2" | 3 => "3" | 4 => "4" | 5 => "5"
  | 6 => "6" | 7 => "7" | 8 => "8" | 9 => "9" | 10 => "a" | 11 => "b"
  | 12 => "c" | 13 => "d" | 14 => "e" | _ => "f"
  end%N%char.

(** [buf.toString('hex')] *)
Fixpoint Buffer_toHex (buf : Buffer) : string :=
  match buf with
  | [] => EmptyString
  | b :: buf' =>
      String (hexDigit (Byte.to_N b / 16))
        (String (hexDigit (Byte.to_N b mod 16)) (Buffer_toHex buf'))
  end.

Definition byte_of_N (n : N) : Byte.byte :=
  match Byte.of_N n with
  | Some b => b
  | None => Byte.x00
  end.

(** [Buffer.from(s, 'hex')]: two digits per byte, first digit high; decoding
    stops at the first pair that is not hexadecimal. *)
Fixpoint Buffer_fromHex (s : string) : Buffer :=
  match s with
  | String a (String b rest) =>
      match ascii_to_digit a, ascii_to_digit b with
      | Some hi, Some lo => byte_of_N (16 * hi + lo) :: Buffer_fromHex rest
      | _, _ => []
      end
  | _ => []
  end.

(** [n.toString(16)] for an integer [n]. *)
Definition toString16 (n : Z) : string :=
  match n with
  | Z0 => "0"
  | Zpos p => HexString.Raw.of_pos p EmptyString
  | Zneg p => String "-" (HexString.Raw.of_pos p EmptyString)
  end.

(** ** reserve.ts *)
Module Reserve.

Definition MAX_SIGNATORIES : nat := 76.
Definition MIN_RELAY_FEE : Z := 1000.

Inductive BitcoinNetwork : Type := mainnet | testnet | regtest.

(** An entry of [getSignatorySet]'s result. *)
Record Validator : Type := mkValidator {
  validatorKey : string;
  votingPower : Z
}.

(** An element of [signatories] in [createWitnessScript]. *)
Record SignatoryInfo : Type := mkSignatoryInfo {
  pubkey : string;
  sigVotingPower : Z   (* field [votingPower] of the source *)
}.

(** [ValidatorMap]: the entries [[key, votingPower]] in property order. *)
Definition ValidatorMap : Type := list (string * Z).

(** [uint]: the argument is an integer by its type, so the
    [Number.isInteger] test of the source always passes. *)
Definition uint (n : Z) : result string :=
  if (n >? 0xffffffff) || (n <? 0) then Throw NumberOutOfRange
  else
    let nHex := toString16 n in
    if Nat.odd (String.length nHex) then Ok (String "0" nHex) else Ok nHex.

(** The three script templates.  A template literal is modelled by the list
    of its whitespace-separated tokens, in order; [trim] below drops the
    empty ones, as the source's split-filter-join does. *)
Definition firstSignatory (signatory : option SignatoryInfo) : result (list string) :=
  match signatory with
  | None => Throw TypeError          (* signatories[0] is undefined *)
  | Some s =>
      vp <-! uint (sigVotingPower s) ;;
      Ok [pubkey s; "OP_CHECKSIG"; "OP_IF"; vp; "OP_ELSE"; "OP_0"; "OP_ENDIF"]
  end%string.

Definition nthSignatory (s : SignatoryInfo) : result (list string) :=
  (vp <-! uint (sigVotingPower s) ;;
   Ok ["OP_SWAP"; pubkey s; "OP_CHECKSIG"; "OP_IF"; vp; "OP_ADD"; "OP_ENDIF"])%string.

Definition compare (threshold : Z) : result (list string) :=
  (t <-! uint threshold ;; Ok [t; "OP_GREATERTHAN"])%string.

Definition signature (sig : string) : string :=
  if String.eqb sig EmptyString then "OP_0"%string else sig.

Definition getVotingPowerThreshold (signatories : list SignatoryInfo) : Z :=
  let totalVotingPower := fold_left (fun sum s => sum + sigVotingPower s) signatories 0 in
  let twoThirdsVotingPower := Math_ceil_div (totalVotingPower * 2) 3 in
  twoThirdsVotingPower.

Definition trim (tokens : list string) : list string :=
  filter (fun s => s ≠ EmptyString) tokens.

(** The comparator passed to [entries.sort]. *)
Definition compareEntries (a b : string * Z) : Z :=
  let votingPowerA := a.2 in
  let votingPowerB := b.2 in
  let cmp := votingPowerB - votingPowerA in
  if cmp =? 0 then (if String.ltb b.1 a.1 then 1 else -1) else cmp.

Definition getSignatorySet (validators : ValidatorMap) : list Validator :=
  let entries := Array_sort compareEntries validators in
  take MAX_SIGNATORIES (map (fun e => mkValidator e.1 e.2) entries).

(** The [signatories] array of [createWitnessScript]: the selected
    validators that have a committed key (a Buffer is truthy, so the filter
    tests presence), each with its key in hexadecimal.  After the filter the
    lookup inside [map] always finds a key. *)
Definition signatoriesOf (validators : ValidatorMap)
    (signatoryKeys : gmap string Buffer) : list SignatoryInfo :=
  map (fun v =>
         let pubkeyBytes := default [] (signatoryKeys !! validatorKey v) in
         let pubkeyHex := Buffer_toHex pubkeyBytes in
         mkSignatoryInfo pubkeyHex (votingPower v))
      (filter (fun validator => is_Some (signatoryKeys !! validatorKey validator))
         (getSignatorySet validators)).

(** The string [trim(asm)] handed to [script.fromASM], as its tokens. *)
Definition witnessScriptAsm (validators : ValidatorMap)
    (signatoryKeys : gmap string Buffer) : result (list string) :=
  let signatories := signatoriesOf validators signatoryKeys in
  let twoThirdsVotingPower := getVotingPowerThreshold signatories in
  first <-! firstSignatory (signatories !! 0%nat) ;;
  rest <-! mapR nthSignatory (drop 1 signatories) ;;
  last <-! compare twoThirdsVotingPower ;;
  Ok (trim (first ++ concat rest ++ last)).


(** *** Transactions (bitcoinjs-lib's [Transaction]) *)

Record TxInput : Type := mkTxInput {
  hash : Buffer;
  in_index : Z
}.

Record TxOutput : Type := mkTxOutput {
  out_script : Buffer;
  value : Z
}.

Record Transaction : Type := mkTransaction {
  ins : list TxInput;
  outs : list TxOutput
}.

Definition new_Transaction : Transaction := mkTransaction [] [].

(** [tx.addInput] and [tx.addOutput] append; their argument type checks are
    taken to pass (hashes are 32 bytes, amounts are satoshi values). *)
Definition addInput (tx : Transaction) (txid : Buffer) (index : Z) : Transaction :=
  mkTransaction (ins tx ++ [mkTxInput txid index]) (outs tx).

Definition addOutput (tx : Transaction) (script : Buffer) (amount : Z) : Transaction :=
  mkTransaction (ins tx) (outs tx ++ [mkTxOutput script amount]).

(** What reserve.ts imports from bitcoinjs-lib. *)
Class BitcoinJs : Type := {
  script_fromASM : list string -> Buffer;
  p2wsh_output : Buffer -> BitcoinNetwork -> Buffer;
  p2wsh_address : Buffer -> BitcoinNetwork -> string;
  byteLength : Transaction -> Z
}.

(** [SigningTx]: the inputs and the user outputs. *)
Record Utxo : Type := mkUtxo {
  txid : Buffer;
  index : Z;
  amount : Z
}.

Record Withdrawal : Type := mkWithdrawal {
  script : Buffer;
  out_amount : Z   (* field [amount] of the source *)
}.

Record SigningTx : Type := mkSigningTx {
  inputs : list Utxo;
  outputs : list Withdrawal
}.

Record SignatorySet : Type := mkSignatorySet {
  validators : ValidatorMap;
  signatoryKeys : gmap string Buffer
}.

Section WithBitcoinJs.
Context `{BitcoinJs}.

Definition createWitnessScript (validators : ValidatorMap)
    (signatoryKeys : gmap string Buffer) : result Buffer :=
  asm <-! witnessScriptAsm validators signatoryKeys ;;
  Ok (script_fromASM asm).

Definition createOutput (validators : ValidatorMap)
    (signatoryKeys : gmap string Buffer) (network : BitcoinNetwork) : result Buffer :=
  p2ss <-! createWitnessScript validators signatoryKeys ;;
  Ok (p2wsh_output p2ss network).

Definition getP2ssInfo (signatorySet : SignatorySet) (network : BitcoinNetwork)
    : result (string * Buffer) :=
  p2ss <-! createWitnessScript (validators signatorySet) (signatoryKeys signatorySet) ;;
  Ok (p2wsh_address p2ss network, p2ss).

(** First loop of [buildOutgoingTx]. *)
Fixpoint addInputs (inputs : list Utxo) (tx : Transaction) (totalAmount : Z)
    : Transaction * Z :=
  match inputs with
  | [] => (tx, totalAmount)
  | i :: rest => addInputs rest (addInput tx (txid i) (index i)) (totalAmount + amount i)
  end.

(** Second loop: the user outputs, with the running remainder. *)
Fixpoint addOutputs (outputs : list Withdrawal) (tx : Transaction) (remainingAmount : Z)
    : result (Transaction * Z) :=
  match outputs with
  | [] => Ok (tx, remainingAmount)
  | o :: rest =>
      let tx := addOutput tx (script o) (out_amount o) in
      let remainingAmount := remainingAmount - out_amount o in
      if remainingAmount <=? 0 then Throw OutputExceedsInput
      else addOutputs rest tx remainingAmount
  end.

(** Third loop: [for (let i = 0; i < outputs.length; i++)], entered at [i]
    with [n] iterations left; [tx.outs[i]] is read and written in place. *)
Fixpoint payFee (feeAmountPerWithdrawal : Z) (i n : nat) (outs : list TxOutput)
    : result (list TxOutput) :=
  match n with
  | O => Ok outs
  | S n' =>
      match outs !! i with
      | None => Throw TypeError
      | Some out =>
          let out := mkTxOutput (out_script out) (value out - feeAmountPerWithdrawal) in
          if value out <=? 0 then Throw OutputBelowFee
          else payFee feeAmountPerWithdrawal (S i) n' (<[i := out]> outs)
      end
  end.

(** [buildOutgoingTx].  With no user output the source's division yields
    [Infinity]; the loop that would read it runs zero times, so the value
    [Math_ceil_div] gives there is never used. *)
Definition buildOutgoingTx (signingTx : SigningTx) (validators : ValidatorMap)
    (signatoryKeys : gmap string Buffer) (network : BitcoinNetwork)
    : result Transaction :=
  let tx := new_Transaction in
  let totalAmount := 0 in
  let '(tx, totalAmount) := addInputs (inputs signingTx) tx totalAmount in
  let remainingAmount := totalAmount in
  added <-! addOutputs (outputs signingTx) tx remainingAmount ;;
  let '(tx, remainingAmount) := added in
  (* change output *)
  p2ss <-! createOutput validators signatoryKeys network ;;
  let tx := addOutput tx p2ss remainingAmount in
  (* withdrawals pay fee *)
  let txLength := byteLength tx in
  let feeAmount := txLength in
  let feeAmount := Z.max feeAmount MIN_RELAY_FEE in
  let n := length (outputs signingTx) in
  let feeAmountPerWithdrawal := Math_ceil_div feeAmount (Z.of_nat n) in
  outs' <-! payFee feeAmountPerWithdrawal 0 n (outs tx) ;;
  Ok (mkTransaction (ins tx) outs').

End WithBitcoinJs.

(** Sums used to state what the builder conserves. *)
Definition totalIn (inputs : list Utxo) : Z :=
  foldr (fun i acc => amount i + acc) 0 inputs.

Definition totalOut (outs : list TxOutput) : Z :=
  foldr (fun o acc => value o + acc) 0 outs.

Definition totalWithdrawn (outputs : list Withdrawal) : Z :=
  foldr (fun o acc => out_amount o + acc) 0 outputs.

End Reserve.

(** ** index.js *)
Module Peg.

Definition SIGNATORY_KEY_LENGTH : nat := 33.
Definition SIGNATURE_LENGTH : nat := 64.

Record Header : Type := mkHeader {
  height : Z;
  version : Z;
  prevHash : Buffer;
  merkleRoot : Buffer;
  timestamp : Z;
  bits : Z;
  nonce : Z
}.

(** [tx.proof] of a deposit: the fields bitcoin-merkle-proof reads, plus the
    [height] the handler looks up. *)
Record MerkleProof : Type := mkMerkleProof {
  proof_height : Z;
  proof_merkleRoot : Buffer;
  flags : list bool;
  hashes : list Buffer;
  numTransactions : Z
}.

Definition set_merkleRoot (proof : MerkleProof) (root : Buffer) : MerkleProof :=
  mkMerkleProof (proof_height proof) root (flags proof) (hashes proof)
    (numTransactions proof).

(** The peg's part of the replicated state, as [initializer] lays it out. *)
Record State : Type := mkState {
  chain : list Header;
  signatoryKeys : gmap string Buffer;
  processedTxs : gmap string bool;
  utxos : list Reserve.Utxo
}.

Record Context : Type := mkContext {
  validators : Reserve.ValidatorMap
}.

(** The transaction kinds [txHandler] tells apart by the field present. *)
Inductive Tx : Type :=
  | HeadersTx (headers : list Header)
  | DepositTx (transaction : Buffer) (proof : MerkleProof)
  | SignatoryKeyTx (signatoryIndex : Z) (signatoryKey : Buffer) (signature : Buffer)
  | OtherTx.

(** What index.js requires from other packages: bitcoin-protocol,
    bitcoin-net, blockchain-spv, bitcoin-merkle-proof, supercop.js and
    Buffer's base64 codec. *)
Class PegLibs : Type := {
  BitcoinTx : Type;
  transaction_decode : Buffer -> result BitcoinTx;
  getTxHash : BitcoinTx -> Buffer;
  toBase64 : Buffer -> string;
  fromBase64 : string -> Buffer;
  Blockchain_add : list Header -> list Header -> list Header * result unit;
  Blockchain_getByHeight : list Header -> Z -> result Header;
  verifyMerkleProof : MerkleProof -> result (list Buffer);
  ed25519_verify : Buffer -> Buffer -> Buffer -> bool
}.

(** A handler is given the state object and writes to it in place; when it
    throws, the object holds what was written up to the throw.  So a run
    returns the state it leaves together with its result or its error. *)
Definition M (A : Type) : Type := State -> State * result A.

Definition ret {A : Type} (a : A) : M A := fun s => (s, Ok a).
Definition throw {A : Type} (e : error) : M A := fun s => (s, Throw e).
Definition lift {A : Type} (r : result A) : M A := fun s => (s, r).
Definition get : M State := fun s => (s, Ok s).
Definition put (s' : State) : M unit := fun _ => (s', Ok tt).
Definition bind {A B : Type} (m : M A) (k : A -> M B) : M B :=
  fun s =>
    match m s with
    | (s', Ok a) => k a s'
    | (s', Throw e) => (s', Throw e)
    end.

Notation "x <<- m ;; k" := (bind m (fun x => k))
  (at level 100, m at next level, right associativity).
Notation "m ;;; k" := (bind m (fun _ => k))
  (at level 100, right associativity).

(** [arr[i]] for an integer [i]: [undefined] outside the array. *)
Definition array_get {A : Type} (arr : list A) (i : Z) : option A :=
  if i <? 0 then None else arr !! Z.to_nat i.

Definition initializer (initialHeader : Header) : State :=
  mkState [initialHeader] ∅ ∅ [].

Section WithPegLibs.
Context `{PegLibs}.

Definition headersTx (headers : list Header) (context : Context) : M unit :=
  fun state =>
    let '(store, r) := Blockchain_add (chain state) headers in
    (mkState store (signatoryKeys state) (processedTxs state) (utxos state), r).

Definition depositTx (transaction : Buffer) (proof : MerkleProof)
    (context : Context) : M unit :=
  (* decode transaction *)
  let txBytes := transaction in
  bitcoinTx <<- lift (transaction_decode txBytes) ;;
  (* get hash of tx *)
  let txid := getTxHash bitcoinTx in
  let txidBase64 := toBase64 txid in
  (* verify tx hasn't already been processed *)
  state <<- get ;;
  if bool_decide (processedTxs state !! txidBase64 = Some true)
  then throw AlreadyProcessed
  else
    put (mkState (chain state) (signatoryKeys state)
           (<[txidBase64 := true]> (processedTxs state)) (utxos state)) ;;;
    (* get specified block header from state *)
    state <<- get ;;
    header <<- lift (Blockchain_getByHeight (chain state) (proof_height proof)) ;;
    (* verify proof is connected to block, and is valid *)
    let proof := set_merkleRoot proof (merkleRoot header) in
    txids <<- lift (verifyMerkleProof proof) ;;
    (* verify tx hash is included in proof *)
    if bool_decide (length txids ≠ 1%nat) then throw ExpectedOneTxid
    else
      match txids !! 0%nat with
      | None => throw TypeError
      | Some txid0 =>
          if bool_decide (txid0 = txid) then ret tt else throw ProofMismatch
      end.

(** [signatoryKeyTx].  The index is an integer and the key and signature
    are Buffers by their types, so the three type tests of the source pass;
    both length tests throw the same message. *)
Definition signatoryKeyTx (signatoryIndex : Z) (signatoryKey signature : Buffer)
    (context : Context) : M unit :=
  if bool_decide (length signatoryKey ≠ SIGNATORY_KEY_LENGTH)
  then throw InvalidSignatoryKeyLength
  else if bool_decide (length signature ≠ SIGNATURE_LENGTH)
  then throw InvalidSignatoryKeyLength
  else
    (* get validator's public key *)
    let signatorySet := Reserve.getSignatorySet (validators context) in
    match array_get signatorySet signatoryIndex with
    | None => throw TypeError
    | Some entry =>
        let validatorKeyBase64 := Reserve.validatorKey entry in
        let validatorKey := fromBase64 validatorKeyBase64 in
        if negb (ed25519_verify signature signatoryKey validatorKey)
        then throw InvalidSignature
        else
          (* add signatory key to state *)
          state <<- get ;;
          put (mkState (chain state)
                 (<[validatorKeyBase64 := signatoryKey]> (signatoryKeys state))
                 (processedTxs state) (utxos state))
    end.

Definition txHandler (tx : Tx) (context : Context) : M unit :=
  match tx with
  | HeadersTx headers => headersTx headers context
  | DepositTx transaction proof => depositTx transaction proof context
  | SignatoryKeyTx signatoryIndex signatoryKey signature =>
      signatoryKeyTx signatoryIndex signatoryKey signature context
  | OtherTx => throw UnknownTransactionType
  end.

End WithPegLibs.

End Peg.

(** ** signatory.ts *)
Module Signatory.

(** The validator's key file: its public key in base64 and its private key. *)
Record ValidatorKey : Type := mkValidatorKey {
  pub_key_value : string;
  priv_key_value : string
}.

(** What signatory.ts requires from secp256k1 and ed25519-supercop;
    [ed25519Sign] stands for the file's helper of that name together with
    [convertEd25519] and the package's [sign]. *)
Class SignatoryLibs : Type := {
  publicKeyVerify : Buffer -> bool;
  ed25519Sign : ValidatorKey -> Buffer -> result Buffer
}.

(** The search loop of [commitPubkey]: the first index whose entry carries
    the validator's key. *)
Fixpoint findSignatoryIndex (signatorySet : list Reserve.Validator)
    (key : string) (i : Z) : option Z :=
  match signatorySet with
  | [] => None
  | signatory :: rest =>
      if String.eqb (Reserve.validatorKey signatory) key then Some i
      else findSignatoryIndex rest key (i + 1)
  end.

Section WithSignatoryLibs.
Context `{SignatoryLibs}.

(** [commitPubkey] up to the message it hands to [client.send];
    [validators] is the client's validator list already converted to a
    validator map. *)
Definition commitPubkey (validators : Reserve.ValidatorMap)
    (privValidator : ValidatorKey) (signatoryPub : Buffer) : result Peg.Tx :=
  if negb (publicKeyVerify signatoryPub) then Throw InvalidSignatoryPublicKey
  else
    let signatorySet := Reserve.getSignatorySet validators in
    match findSignatoryIndex signatorySet (pub_key_value privValidator) 0 with
    | None => Throw ValidatorKeyNotFound
    | Some signatoryIndex =>
        signature <-! ed25519Sign privValidator signatoryPub ;;
        Ok (Peg.SignatoryKeyTx signatoryIndex signatoryPub signature)
    end.

End WithSignatoryLibs.

End Signatory.

(** ** A small instance of the imported packages

    Used to run the model on concrete inputs: a one-byte-per-opcode script
    serializer, bitcoinjs-lib's size formula for a transaction without
    witnesses, a chain store indexed from its first header, and Merkle
    proofs of blocks with a single transaction (whose root is the txid). *)
Module Fixture.

Definition opcode (token : string) : option Byte.byte :=
  (if String.eqb token "OP_0" then Some Byte.x00
   else if String.eqb token "OP_IF" then Some Byte.x63
   else if String.eqb token "OP_ELSE" then Some Byte.x67
   else if String.eqb token "OP_ENDIF" then Some Byte.x68
   else if String.eqb token "OP_SWAP" then Some Byte.x7c
   else if String.eqb token "OP_ADD" then Some Byte.x93
   else if String.eqb token "OP_GREATERTHAN" then Some Byte.xa0
   else if String.eqb token "OP_CHECKSIG" then Some Byte.xac
   else None)%string.

Definition compileToken (token : string) : Buffer :=
  match opcode token with
  | Some op => [op]
  | None =>
      let data := Buffer_fromHex token in
      byte_of_N (N.of_nat (length data)) :: data
  end.

Definition fromASM (asm : list string) : Buffer :=
  concat (map compileToken asm).

Definition varuintLength (n : Z) : Z :=
  if n <? 0xfd then 1 else if n <=? 0xffff then 3 else if n <=? 0xffffffff then 5 else 9.

Definition varSliceSize (buf : Buffer) : Z :=
  varuintLength (Z.of_nat (length buf)) + Z.of_nat (length buf).

Definition txByteLength (tx : Reserve.Transaction) : Z :=
  8 + varuintLength (Z.of_nat (length (Reserve.ins tx)))
    + varuintLength (Z.of_nat (length (Reserve.outs tx)))
    + foldr (fun _ sum => sum + 40 + varSliceSize []) 0 (Reserve.ins tx)
    + foldr (fun output sum => sum + 8 + varSliceSize (Reserve.out_script output)) 0
        (Reserve.outs tx).

Definition bitcoinjs : Reserve.BitcoinJs := {|
  Reserve.script_fromASM := fromASM;
  Reserve.p2wsh_output := fun p2ss _ => Byte.x00 :: Byte.x20 :: take 32 p2ss;
  Reserve.p2wsh_address := fun p2ss _ => String.append "bcrt1" (Buffer_toHex (take 32 p2ss));
  Reserve.byteLength := txByteLength
|}.

Definition getByHeight (store : list Peg.Header) (h : Z) : result Peg.Header :=
  match store with
  | [] => Throw (LibraryError "No headers in store")
  | first :: _ =>
      match Peg.array_get store (h - Peg.height first) with
      | Some header => Ok header
      | None => Throw (LibraryError "Header not found")
      end
  end.

Definition verifySingleTxProof (proof : Peg.MerkleProof) : result (list Buffer) :=
  match Peg.hashes proof with
  | [txid] =>
      if bool_decide (txid = Peg.proof_merkleRoot proof) then Ok [txid]
      else Throw (LibraryError "Calculated Merkle root does not match header")
  | _ => Throw (LibraryError "Unsupported proof")
  end.

Definition peglibs : Peg.PegLibs := {|
  Peg.BitcoinTx := Buffer;
  Peg.transaction_decode := fun bytes => Ok bytes;
  Peg.getTxHash := fun tx => take 32 tx;
  Peg.toBase64 := Buffer_toHex;
  Peg.fromBase64 := Buffer_fromHex;
  Peg.Blockchain_add := fun store headers => (store ++ headers, Ok tt);
  Peg.Blockchain_getByHeight := getByHeight;
  Peg.verifyMerkleProof := verifySingleTxProof;
  Peg.ed25519_verify := fun signature message publicKey =>
    bool_decide (signature = take 64 (publicKey ++ message))
|}.

(** secp256k1's first test on a compressed key: 33 bytes led by 02 or 03. *)
Definition compressedKeyShape (key : Buffer) : bool :=
  match key with
  | prefix :: rest =>
      bool_decide (length rest = 32%nat)
      && (bool_decide (prefix = Byte.x02) || bool_decide (prefix = Byte.x03))
  | [] => false
  end.

Definition signatorylibs : Signatory.SignatoryLibs := {|
  Signatory.publicKeyVerify := compressedKeyShape;
  Signatory.ed25519Sign := fun key message =>
    Ok (take 64 (Buffer_fromHex (Signatory.pub_key_value key) ++ message))
|}.

(** Sample data. *)
Definition key33 : Buffer := Byte.x02 :: repeat Byte.x11 32.
Definition zeroKey33 : Buffer := repeat Byte.x00 33.
Definition txidA : Buffer := repeat Byte.xaa 32.
Definition rootB : Buffer := repeat Byte.xbb 32.
Definition validatorB : string := Buffer_toHex (repeat Byte.x0b 32).
Definition genesis : Peg.Header := Peg.mkHeader 0 1 (repeat Byte.x00 32) txidA 0 0 0.
Definition badBlock : Peg.Header := Peg.mkHeader 0 1 (repeat Byte.x00 32) rootB 0 0 0.
Definition proofA : Peg.MerkleProof := Peg.mkMerkleProof 0 [] [true] [txidA] 1.

End Fixture.

(** ** Vocabulary of the properties *)


Definition sumZ (l : list Z) : Z := foldr Z.add 0 l.

(** [ceil(2 * total / 3)] *)
Definition twoThirds (total : Z) : Z := Math_ceil_div (2 * total) 3.

(** The selected validators that have committed a key. *)
Definition committed (signatoryKeys : gmap string Buffer)
    (selected : list Reserve.Validator) : list Reserve.Validator :=
  filter (fun v => is_Some (signatoryKeys !! Reserve.validatorKey v)) selected.

(** The order [getSignatorySet] realises: more voting power first, equal
    powers by ascending key. *)
Definition selectedBefore (a b : Reserve.Validator) : Prop :=
  Reserve.votingPower a > Reserve.votingPower b
  \/ (Reserve.votingPower a = Reserve.votingPower b
      /\ String.ltb (Reserve.validatorKey a) (Reserve.validatorKey b) = true).

(** The shortest little-endian byte string of a natural number, least
    significant byte first (the empty string for zero). *)
Fixpoint le_bytes (fuel : nat) (n : N) : Buffer :=
  match fuel with
  | O => []
  | S fuel' =>
      if (n =? 0)%N then []
      else byte_of_N (n mod 256) :: le_bytes fuel' (n / 256)
  end.

Definition minimal_le_bytes (n : Z) : Buffer :=
  le_bytes (N.to_nat (N.size (Z.to_N n))) (Z.to_N n).

(** What a disbursal leaves to the miners. *)
Definition feePaid (signingTx : Reserve.SigningTx) (tx : Reserve.Transaction) : Z :=
  Reserve.totalIn (Reserve.inputs signingTx) - Reserve.totalOut (Reserve.outs tx).

(** An entry of the validator map as the selector returns it. *)
Definition toValidator (e : string * Z) : Reserve.Validator :=
  Reserve.mkValidator e.1 e.2.

(** What [tx.addInput] and [tx.addOutput] store for an input and for a
    user output of the signing transaction. *)
Definition toTxInput (i : Reserve.Utxo) : Reserve.TxInput :=
  Reserve.mkTxInput (Reserve.txid i) (Reserve.index i).

Definition toTxOutput (o : Reserve.Withdrawal) : Reserve.TxOutput :=
  Reserve.mkTxOutput (Reserve.script o) (Reserve.out_amount o).

(** The state after [state.processedTxs[txidBase64] = true]. *)
Definition markProcessed (state : Peg.State) (txidBase64 : string) : Peg.State :=
  Peg.mkState (Peg.chain state) (Peg.signatoryKeys state)
    (<[txidBase64 := true]> (Peg.processedTxs state)) (Peg.utxos state).

(** The state after [state.signatoryKeys[validatorKeyBase64] = signatoryKey]. *)
Definition commitKey (state : Peg.State) (validatorKeyBase64 : string)
    (signatoryKey : Buffer) : Peg.State :=
  Peg.mkState (Peg.chain state)
    (<[validatorKeyBase64 := signatoryKey]> (Peg.signatoryKeys state))
    (Peg.processedTxs state) (Peg.utxos state).

(** Unfolds a handler down to its state-passing steps. *)
Ltac run_handler :=
  unfold Peg.depositTx, Peg.signatoryKeyTx, Peg.bind, Peg.lift, Peg.get, Peg.put,
    Peg.throw, Peg.ret.

(** ** signatory.ts: the signer's side

    [convertEd25519], [signDisbursal] up to the message it hands to
    [client.send], [getSignatoryScriptHashFromPegZone] and
    [getCurrentP2ssAddress]; what they read from the light client (the
    signatory set, its signing transaction, the validator list) is an
    argument. *)
Module Client.

Definition SIGHASH_ALL : Z := 1.

(** [b &= m] and [b |= m] on an element of a Buffer. *)
Definition byte_land (b : Byte.byte) (m : N) : Byte.byte :=
  byte_of_N (N.land (Byte.to_N b) m).

Definition byte_lor (b : Byte.byte) (m : N) : Byte.byte :=
  byte_of_N (N.lor (Byte.to_N b) m).

(** What this part of signatory.ts requires from crypto, secp256k1 and
    bitcoinjs-lib's [Transaction]; their argument checks are taken to pass. *)
Class SignerLibs : Type := {
  sha512 : Buffer -> Buffer;
  publicKeyCreate : Buffer -> Buffer;
  hashForWitnessV0 : Reserve.Transaction -> nat -> Buffer -> Z -> Z -> Buffer;
  secp_sign : Buffer -> Buffer -> Buffer;
  signatureExport : Buffer -> Buffer
}.

(** Errors of this part: the two messages of [signDisbursal], the one of
    [getCurrentP2ssAddress], and whatever a callee raises. *)
Inductive client_error : Type :=
  | SignatoryKeyNotInSet     (* 'Given signatory key not found in signatory set' *)
  | NoTxToBeSigned           (* 'No tx to be signed' *)
  | NoP2ssAddress            (* 'Could not derive p2ss address from peg zone' *)
  | Raised (e : error).

(** The message [signDisbursal] sends. *)
Record SignatureTx : Type := mkSignatureTx {
  signatures : list Buffer;
  signatoryIndex : Z
}.

(** A validator as the light client lists it. *)
Record LightClientValidator : Type := mkLightClientValidator {
  lc_pub_key_value : string;
  lc_voting_power : Z
}.

(** [obj[key] = value] on an object read through [Object.entries]: an
    existing property keeps its place, a new one goes last (the keys are
    base64 strings, none of them an array index). *)
Fixpoint object_set (obj : Reserve.ValidatorMap) (key : string) (v : Z)
    : Reserve.ValidatorMap :=
  match obj with
  | [] => [(key, v)]
  | (k, w) :: rest =>
      if String.eqb k key then (k, v) :: rest else (k, w) :: object_set rest key v
  end.

(** The search loop of [signDisbursal]: [signatoryKeys[...]] is read for
    every entry up to the first match, and [.equals] on a missing key is a
    TypeError. *)
Fixpoint findSignatoryByKey (signatoryKeyAndPower : list Reserve.Validator)
    (signatoryKeys : gmap string Buffer) (signatoryPub : Buffer) (i : Z)
    : result (option Z) :=
  match signatoryKeyAndPower with
  | [] => Ok None
  | signatory :: rest =>
      match signatoryKeys !! Reserve.validatorKey signatory with
      | None => Throw TypeError
      | Some key =>
          if bool_decide (key = signatoryPub) then Ok (Some i)
          else findSignatoryByKey rest signatoryKeys signatoryPub (i + 1)
      end
  end.

Section WithSignerLibs.
Context `{SignerLibs}.

(** [convertEd25519]: a write past the end of a Buffer is ignored, as
    [alter] does. *)
Definition convertEd25519 (ref10Priv : Buffer) : Buffer :=
  let privConverted := sha512 (take 32 ref10Priv) in
  let privConverted := alter (fun b => byte_land b 248) 0%nat privConverted in
  let privConverted := alter (fun b => byte_land b 63) 31%nat privConverted in
  let privConverted := alter (fun b => byte_lor b 64) 31%nat privConverted in
  privConverted.

Context `{Reserve.BitcoinJs}.

Definition signDisbursal (signatorySet : Reserve.SignatorySet)
    (signingTx : option Reserve.SigningTx) (signatoryPriv : Buffer)
    (network : Reserve.BitcoinNetwork) : client_error + SignatureTx :=
  let signatoryPub := publicKeyCreate signatoryPriv in
  let signatoryKeys := Reserve.signatoryKeys signatorySet in
  let validators := Reserve.validators signatorySet in
  let signatoryKeyAndPower := Reserve.getSignatorySet validators in
  match findSignatoryByKey signatoryKeyAndPower signatoryKeys signatoryPub 0 with
  | Throw e => inl (Raised e)
  | Ok None => inl SignatoryKeyNotInSet
  | Ok (Some signatoryIndex) =>
      match signingTx with
      | None => inl NoTxToBeSigned
      | Some signingTx =>
          match Reserve.buildOutgoingTx signingTx validators signatoryKeys network with
          | Throw e => inl (Raised e)
          | Ok bitcoinTx =>
              match Reserve.createWitnessScript validators signatoryKeys with
              | Throw e => inl (Raised e)
              | Ok p2ss =>
                  let sigHashes :=
                    imap (fun i input =>
                            hashForWitnessV0 bitcoinTx i p2ss (Reserve.amount input)
                              SIGHASH_ALL)
                         (Reserve.inputs signingTx) in
                  let signatures :=
                    map (fun hash => signatureExport (secp_sign hash signatoryPriv))
                        sigHashes in
                  inr (mkSignatureTx signatures signatoryIndex)
              end
          end
      end
  end.

(** The [forEach] of [getSignatoryScriptHashFromPegZone]. *)
Definition lotionValidatorsOf (validators : list LightClientValidator)
    : Reserve.ValidatorMap :=
  fold_left (fun lotionValidators validator =>
               object_set lotionValidators (lc_pub_key_value validator)
                 (lc_voting_power validator))
            validators [].

Definition getSignatoryScriptHashFromPegZone (signatoryKeys : gmap string Buffer)
    (validators : list LightClientValidator) : result Buffer :=
  let lotionValidators := lotionValidatorsOf validators in
  Reserve.createWitnessScript lotionValidators signatoryKeys.

(** [getCurrentP2ssAddress]: an address that is missing or empty is falsy. *)
Definition getCurrentP2ssAddress (signatoryKeys : gmap string Buffer)
    (validators : list LightClientValidator) (network : Reserve.BitcoinNetwork)
    : client_error + string :=
  match getSignatoryScriptHashFromPegZone signatoryKeys validators with
  | Throw e => inl (Raised e)
  | Ok p2ss =>
      let p2ssAddress := Reserve.p2wsh_address p2ss network in
      if String.eqb p2ssAddress EmptyString then inl NoP2ssAddress else inr p2ssAddress
  end.

End WithSignerLibs.

End Client.

(** An instance of [Client.SignerLibs] to run the signer's side on concrete
    inputs: a padding stand-in for the hash, and tagged concatenations for
    key derivation, sighash and signature. *)
Module ClientFixture.

Definition pad64 (data : Buffer) : Buffer := take 64 (data ++ repeat Byte.xff 64).

Definition signerlibs : Client.SignerLibs := {|
  Client.sha512 := pad64;
  Client.publicKeyCreate := fun priv => Byte.x02 :: take 32 (priv ++ repeat Byte.x00 32);
  Client.hashForWitnessV0 := fun tx i script amount hashType =>
    take 32 (byte_of_N (N.of_nat i) :: script ++ repeat Byte.x00 32);
  Client.secp_sign := fun hash priv => hash ++ take 32 (priv ++ repeat Byte.x00 32);
  Client.signatureExport := fun sig => Byte.x30 :: sig
|}.

Definition privB : Buffer := repeat Byte.x11 32.

End ClientFixture.

(** The element of [signatories] made from a selected validator. *)
Definition signatoryInfoOf (signatoryKeys : gmap string Buffer)
    (v : Reserve.Validator) : Reserve.SignatoryInfo :=
  Reserve.mkSignatoryInfo
    (Buffer_toHex (default [] (signatoryKeys !! Reserve.validatorKey v)))
    (Reserve.votingPower v).

(** A user output after its fee share is subtracted. *)
Definition chargeFee (feeAmountPerWithdrawal : Z) (out : Reserve.TxOutput)
    : Reserve.TxOutput :=
  Reserve.mkTxOutput (Reserve.out_script out) (Reserve.value out - feeAmountPerWithdrawal).

(** The transaction [buildOutgoingTx] measures: inputs, user outputs at
    their full amounts, and the change output. *)
Definition measuredTx (signingTx : Reserve.SigningTx) (p2ss : Buffer) : Reserve.Transaction :=
  Reserve.mkTransaction
    (map toTxInput (Reserve.inputs signingTx))
    (map toTxOutput (Reserve.outputs signingTx)
       ++ [Reserve.mkTxOutput p2ss
             (Reserve.totalIn (Reserve.inputs signingTx)
                - Reserve.totalWithdrawn (Reserve.outputs signingTx))]).

(** [feeAmountPerWithdrawal] of [buildOutgoingTx]. *)
Definition feeShare `{Reserve.BitcoinJs} (signingTx : Reserve.SigningTx) (p2ss : Buffer) : Z :=
  Math_ceil_div
    (Z.max (Reserve.byteLength (measuredTx signingTx p2ss)) Reserve.MIN_RELAY_FEE)
    (Z.of_nat (length (Reserve.outputs signingTx))).

(** The map entry a light-client validator stands for. *)
Definition entryOf (v : Client.LightClientValidator) : string * Z :=
  (Client.lc_pub_key_value v, Client.lc_voting_power v).

(** * Properties *)

(** ** Sorting *)

Section SortFacts.
Context {A : Type} (cmp : A -> A -> Z).

Lemma sort_insert_perm (x : A) (l : list A) :
  Permutation (sort_insert cmp x l) (x :: l).
Proof.
  induction l as [|y l IH]; simpl; [done|].
  destruct (cmp x y <=? 0); [done|].
  rewrite IH. apply perm_swap.
Qed.

Lemma Array_sort_perm (l : list A) : Permutation (Array_sort cmp l) l.
Proof.
  induction l as [|x l IH]; simpl; [done|].
  rewrite sort_insert_perm. by constructor.
Qed.

Hypothesis cmp_total : forall a b, cmp a b > 0 -> cmp b a <= 0.

Lemma sort_insert_sorted (x : A) (l : list A) :
  Sorted (fun a b => cmp a b <= 0) l ->
  Sorted (fun a b => cmp a b <= 0) (sort_insert cmp x l).
Proof.
  induction 1 as [|y l Hs IH Hd]; simpl.
  - repeat constructor.
  - destruct (Z.leb_spec (cmp x y) 0) as [Hle|Hgt].
    + constructor; [by constructor|by constructor].
    + constructor; [exact IH|].
      destruct Hd as [|z l Hyz]; simpl.
      * constructor. apply cmp_total. lia.
      * destruct (Z.leb_spec (cmp x z) 0); constructor; [|done].
        apply cmp_total. lia.
Qed.

Lemma Array_sort_sorted (l : list A) :
  Sorted (fun a b => cmp a b <= 0) (Array_sort cmp l).
Proof.
  induction l as [|x l IH]; simpl; [constructor|].
  by apply sort_insert_sorted.
Qed.

End SortFacts.

(** ** String order *)

Lemma String_compare_OT (a b : string) :
  String.compare a b = String_as_OT.compare a b.
Proof.
  (* the two comparison functions have the same body *)
  reflexivity.
Qed.

Lemma ltb_lt (a b : string) : String.ltb a b = true <-> String_as_OT.lt a b.
Proof.
  unfold String.ltb, String_as_OT.lt. rewrite String_compare_OT.
  destruct (String_as_OT.compare a b); split; congruence.
Qed.

Lemma ltb_asym (a b : string) : String.ltb a b = true -> String.ltb b a = false.
Proof.
  intros Hab. destruct (String.ltb b a) eqn:Hba; [|done].
  apply ltb_lt in Hab, Hba.
  destruct (StrictOrder_Irreflexive a).
  by transitivity b.
Qed.

Lemma ltb_total (a b : string) :
  a <> b -> String.ltb b a = false -> String.ltb a b = true.
Proof.
  intros Hne Hba. apply ltb_lt.
  destruct (String_as_OT.compare_spec a b) as [Heq|Hlt|Hgt]; [done|done|].
  apply ltb_lt in Hgt. congruence.
Qed.

Lemma leb_trans (a b c : string) :
  String.ltb b a = false -> String.ltb c b = false -> String.ltb c a = false.
Proof.
  intros Hba Hcb. destruct (String.ltb c a) eqn:Hca; [|done].
  destruct (String_as_OT.compare_spec a b) as [Heq|Hlt|Hgt].
  - unfold String_as_OT.eq in Heq. subst. congruence.
  - apply ltb_lt in Hca. assert (String_as_OT.lt c b) by (by transitivity a).
    apply ltb_lt in H. congruence.
  - apply ltb_lt in Hgt. congruence.
Qed.

(** ** The selector: [getSignatorySet] *)

Lemma compareEntries_le (a b : string * Z) :
  Reserve.compareEntries a b <= 0 <->
  a.2 > b.2 \/ (a.2 = b.2 /\ String.ltb b.1 a.1 = false).
Proof.
  unfold Reserve.compareEntries.
  destruct (Z.eqb_spec (b.2 - a.2) 0) as [Heq|Hne];
    destruct (String.ltb b.1 a.1); intuition (lia || congruence).
Qed.

Lemma compareEntries_total (a b : string * Z) :
  Reserve.compareEntries a b > 0 -> Reserve.compareEntries b a <= 0.
Proof.
  intros Hab. apply compareEntries_le.
  assert (Hn : ~ Reserve.compareEntries a b <= 0) by lia.
  rewrite compareEntries_le in Hn.
  destruct (Z.lt_trichotomy a.2 b.2) as [Hlt|[Heq|Hgt]].
  - left. lia.
  - right. split; [lia|].
    destruct (String.ltb b.1 a.1) eqn:Hba.
    + by apply ltb_asym.
    + destruct Hn. right. done.
  - destruct Hn. left. lia.
Qed.

Lemma compareEntries_trans :
  Relations_1.Transitive (fun a b => Reserve.compareEntries a b <= 0).
Proof.
  intros a b c. rewrite !compareEntries_le.
  intros [Hab|[Hab Kab]] [Hbc|[Hbc Kbc]].
  - left. lia.
  - left. lia.
  - left. lia.
  - right. split; [lia|]. by apply leb_trans with b.1.
Qed.

Lemma sorted_entries (validators : Reserve.ValidatorMap) :
  StronglySorted (fun a b => Reserve.compareEntries a b <= 0)
    (Array_sort Reserve.compareEntries validators).
Proof.
  apply Sorted_StronglySorted; [exact compareEntries_trans|].
  apply Array_sort_sorted. exact compareEntries_total.
Qed.

Lemma compareEntries_antisym (a b : string * Z) :
  Reserve.compareEntries a b <= 0 -> Reserve.compareEntries b a <= 0 -> a = b.
Proof.
  rewrite !compareEntries_le. intros [Hab|[Hab Kab]] [Hba|[Hba Kba]]; try lia.
  destruct a as [ka va], b as [kb vb]; simpl in *. f_equal; [|done].
  destruct (decide (ka = kb)) as [|Hne]; [done|].
  pose proof (ltb_total ka kb Hne Kab). congruence.
Qed.

(** The sorted array does not depend on the sorting algorithm: any
    arrangement of the entries that the comparator accepts is the one
    [Array_sort] returns. *)
Lemma Array_sort_canonical (validators sorted : Reserve.ValidatorMap) :
  Permutation sorted validators ->
  StronglySorted (fun a b => Reserve.compareEntries a b <= 0) sorted ->
  sorted = Array_sort Reserve.compareEntries validators.
Proof.
  intros Hperm Hsorted.
  apply (StronglySorted_unique_strong (fun a b => Reserve.compareEntries a b <= 0));
    [|done|apply sorted_entries|].
  - intros a b _ _. apply compareEntries_antisym.
  - rewrite Hperm. symmetry. apply Array_sort_perm.
Qed.

Lemma strictly_sorted_entries (l : list (string * Z)) :
  NoDup (l.*1) ->
  StronglySorted (fun a b => Reserve.compareEntries a b <= 0) l ->
  StronglySorted (fun a b => selectedBefore (toValidator a) (toValidator b)) l.
Proof.
  intros Hnd Hs. induction Hs as [|a l Hs IH Hall]; [constructor|].
  simpl in Hnd. apply NoDup_cons in Hnd as [Hnotin Hnd].
  constructor; [by apply IH|].
  apply Forall_forall. intros b Hb.
  rewrite Forall_forall in Hall. specialize (Hall b Hb).
  apply compareEntries_le in Hall.
  unfold selectedBefore; simpl.
  destruct Hall as [Hgt|[Heq Hk]]; [by left|right].
  split; [done|]. apply ltb_total; [|done].
  intros Hsame. apply Hnotin. rewrite Hsame.
  apply list_elem_of_fmap. by exists b.
Qed.

Lemma StronglySorted_map {A B : Type} (R : B -> B -> Prop) (f : A -> B) (l : list A) :
  StronglySorted (fun a b => R (f a) (f b)) l -> StronglySorted R (map f l).
Proof.
  induction 1 as [|a l Hs IH Hall]; simpl; constructor; [done|].
  apply Forall_forall. intros b Hb.
  apply (list_elem_of_fmap f) in Hb as [x [-> Hx]].
  rewrite Forall_forall in Hall. by apply Hall.
Qed.

Lemma StronglySorted_take {A : Type} (R : A -> A -> Prop) (n : nat) (l : list A) :
  StronglySorted R l -> StronglySorted R (take n l).
Proof.
  intros Hs. revert n. induction Hs as [|a l Hs IH Hall]; intros [|n]; simpl;
    try constructor; [by apply IH|].
  apply Forall_forall. intros b Hb. rewrite Forall_forall in Hall.
  apply Hall. apply elem_of_take in Hb as [i [Hi _]].
  by eapply list_elem_of_lookup_2.
Qed.

(** C4, as the code has it: the selector lists the validators by voting
    power, highest first, and among equal powers by consensus key in
    ascending order; its result is a prefix of the sorted entries.  For the
    map with [K1] and [K2] both at power 5 and [K1] below [K2], the result is
    [K1] then [K2], whichever key was inserted first. *)
Theorem getSignatorySet_order (validators : Reserve.ValidatorMap) (K1 K2 : string) :
  NoDup (validators.*1) ->
  String.ltb K1 K2 = true ->
  StronglySorted selectedBefore (Reserve.getSignatorySet validators)
  /\ (exists rest,
        Permutation (map toValidator validators)
          (Reserve.getSignatorySet validators ++ rest))
  /\ Reserve.getSignatorySet [(K1, 5); (K2, 5)]
     = [Reserve.mkValidator K1 5; Reserve.mkValidator K2 5]
  /\ Reserve.getSignatorySet [(K2, 5); (K1, 5)]
     = [Reserve.mkValidator K1 5; Reserve.mkValidator K2 5].
Proof.
  intros Hnd Hlt. unfold Reserve.getSignatorySet. repeat split.
  - apply StronglySorted_take. apply (StronglySorted_map selectedBefore toValidator).
    apply strictly_sorted_entries; [|apply sorted_entries].
    by rewrite Array_sort_perm.
  - exists (drop Reserve.MAX_SIGNATORIES
              (map toValidator (Array_sort Reserve.compareEntries validators))).
    change (fun e : string * Z => Reserve.mkValidator e.1 e.2) with toValidator.
    rewrite take_drop. apply Permutation_map. symmetry. apply Array_sort_perm.
  - simpl. unfold Reserve.compareEntries; simpl.
    by rewrite (ltb_asym _ _ Hlt).
  - simpl. unfold Reserve.compareEntries; simpl.
    by rewrite Hlt.
Qed.

Lemma getSignatorySet_order_witness :
  StronglySorted selectedBefore
    (Reserve.getSignatorySet [("K2", 5); ("K0", 7); ("K1", 5)]%string)
  /\ Reserve.getSignatorySet [("K1", 5); ("K2", 5)]%string
     = [Reserve.mkValidator "K1" 5; Reserve.mkValidator "K2" 5].
Proof.
  destruct (getSignatorySet_order [("K2", 5); ("K0", 7); ("K1", 5)]%string "K1" "K2")
    as (Hs & _ & Hpair & _).
  - apply (bool_decide_unpack _). vm_compute. exact I.
  - reflexivity.
  - split; [exact Hs|exact Hpair].
Defined.

(** C4, as stated, at a concrete map: with equal powers and ["K1"] below
    ["K2"], the selector does not return ["K2"] first. *)
Lemma getSignatorySet_tie_counterexample :
  String.ltb "K1" "K2" = true
  /\ Reserve.getSignatorySet [("K1", 5); ("K2", 5)]%string
     <> [Reserve.mkValidator "K2" 5; Reserve.mkValidator "K1" 5].
Proof.
  split; [reflexivity|]. intros Heq. vm_compute in Heq. discriminate Heq.
Qed.

(** ** Integer pushes: [uint] *)

Lemma of_pos_nonempty (p : positive) : HexString.Raw.of_pos p EmptyString <> EmptyString.
Proof.
  intros Hempty.
  pose proof (HexString.Raw.to_N_of_pos p EmptyString 0%N) as Hval.
  rewrite Hempty in Hval. simpl in Hval. discriminate Hval.
Qed.

Lemma toString16_value (n : Z) :
  0 <= n -> HexString.Raw.to_N (toString16 n) 0%N = Z.to_N n.
Proof.
  destruct n as [|p|p]; intros Hn; [reflexivity| |lia].
  simpl. apply (HexString.Raw.to_N_of_pos p EmptyString 0%N).
Qed.

Lemma uint_throws (n : Z) :
  Reserve.uint n = Throw NumberOutOfRange <-> n < 0 \/ 2 ^ 32 <= n.
Proof.
  unfold Reserve.uint.
  destruct (Z.gtb_spec n 0xffffffff) as [Hgt|Hle]; simpl.
  - split; [intros _; right; lia|done].
  - destruct (Z.ltb_spec n 0) as [Hlt|Hge]; simpl.
    + split; [intros _; by left|done].
    + destruct (Nat.odd _); split; try discriminate; lia.
Qed.

Lemma uint_nonempty (n : Z) (t : string) : Reserve.uint n = Ok t -> t <> EmptyString.
Proof.
  unfold Reserve.uint.
  destruct ((n >? 0xffffffff) || (n <? 0)); [discriminate|].
  destruct (Nat.odd _); intros [= <-]; [discriminate|].
  destruct n as [|p|p]; simpl; [discriminate|apply of_pos_nonempty|discriminate].
Qed.

(** The text [uint] returns is the number in base 16, most significant
    digit first, on an even number of digits. *)
Lemma uint_value (n : Z) (t : string) :
  Reserve.uint n = Ok t ->
  HexString.Raw.to_N t 0%N = Z.to_N n /\ Nat.even (String.length t) = true.
Proof.
  unfold Reserve.uint.
  destruct (Z.gtb_spec n 0xffffffff) as [Hgt|Hle]; simpl; [discriminate|].
  destruct (Z.ltb_spec n 0) as [Hlt|Hge]; simpl; [discriminate|].
  destruct (Nat.odd (String.length (toString16 n))) eqn:Hodd; intros [= <-].
  - split; [simpl; by apply toString16_value|].
    simpl String.length. rewrite Nat.even_succ. exact Hodd.
  - split; [by apply toString16_value|].
    rewrite <- Nat.negb_odd. by rewrite Hodd.
Qed.

(** ** The witness script: [createWitnessScript] *)

Lemma fold_left_votingPower (signatories : list Reserve.SignatoryInfo) (acc : Z) :
  fold_left (fun sum s => sum + Reserve.sigVotingPower s) signatories acc
  = acc + sumZ (map Reserve.sigVotingPower signatories).
Proof.
  revert acc. induction signatories as [|s l IH]; intros acc; simpl; [lia|].
  rewrite IH. unfold sumZ. lia.
Qed.

Lemma getVotingPowerThreshold_twoThirds (signatories : list Reserve.SignatoryInfo) :
  Reserve.getVotingPowerThreshold signatories
  = twoThirds (sumZ (map Reserve.sigVotingPower signatories)).
Proof.
  unfold Reserve.getVotingPowerThreshold, twoThirds.
  rewrite fold_left_votingPower. f_equal. lia.
Qed.

Lemma signatoriesOf_votingPower (validators : Reserve.ValidatorMap)
    (signatoryKeys : gmap string Buffer) :
  map Reserve.sigVotingPower (Reserve.signatoriesOf validators signatoryKeys)
  = map Reserve.votingPower
      (committed signatoryKeys (Reserve.getSignatorySet validators)).
Proof.
  unfold Reserve.signatoriesOf, committed. rewrite map_map. done.
Qed.





Lemma uint_throw_kind (n : Z) (e : error) :
  Reserve.uint n = Throw e -> e = NumberOutOfRange.
Proof.
  unfold Reserve.uint.
  destruct ((n >? 0xffffffff) || (n <? 0)); [by intros [= <-]|].
  destruct (Nat.odd _); discriminate.
Qed.

Lemma mapR_throws {A B : Type} (f : A -> result B) (l : list A) (x : A) (e0 : error) :
  (forall y e, f y = Throw e -> e = e0) ->
  x ∈ l -> f x = Throw e0 -> mapR f l = Throw e0.
Proof.
  intros Hkind Hin Hx. induction l as [|y l IH]; [by apply not_elem_of_nil in Hin|].
  simpl. destruct (f y) as [b|e] eqn:Hy; simpl.
  - apply elem_of_cons in Hin as [->|Hin]; [congruence|].
    by rewrite (IH Hin).
  - by rewrite (Hkind _ _ Hy).
Qed.

Lemma signatoriesOf_elem (validators : Reserve.ValidatorMap)
    (signatoryKeys : gmap string Buffer) (v : Reserve.Validator) :
  v ∈ committed signatoryKeys (Reserve.getSignatorySet validators) ->
  exists s, s ∈ Reserve.signatoriesOf validators signatoryKeys
            /\ Reserve.sigVotingPower s = Reserve.votingPower v.
Proof.
  unfold committed, Reserve.signatoriesOf. intros Hv.
  eexists. split; [by apply list_elem_of_fmap_2|done].
Qed.

Lemma witnessScriptAsm_out_of_range (validators : Reserve.ValidatorMap)
    (signatoryKeys : gmap string Buffer) (v : Reserve.Validator) :
  v ∈ committed signatoryKeys (Reserve.getSignatorySet validators) ->
  Reserve.votingPower v < 0 \/ 2 ^ 32 <= Reserve.votingPower v ->
  Reserve.witnessScriptAsm validators signatoryKeys = Throw NumberOutOfRange.
Proof.
  intros Hv Hrange. apply signatoriesOf_elem in Hv as (s & Hs & Hvp).
  rewrite <- Hvp in Hrange. apply uint_throws in Hrange.
  unfold Reserve.witnessScriptAsm.
  destruct (Reserve.signatoriesOf validators signatoryKeys) as [|s0 rest];
    [by apply not_elem_of_nil in Hs|].
  change ((s0 :: rest) !! 0%nat) with (Some s0).
  change (drop 1 (s0 :: rest)) with rest.
  unfold Reserve.firstSignatory.
  destruct (Reserve.uint (Reserve.sigVotingPower s0)) as [t0|e0] eqn:H0; cbn [rbind].
  - apply elem_of_cons in Hs as [->|Hs]; [congruence|].
    rewrite (mapR_throws Reserve.nthSignatory rest s NumberOutOfRange); [done| |done|].
    + intros y e. unfold Reserve.nthSignatory.
      destruct (Reserve.uint (Reserve.sigVotingPower y)) eqn:Hy; simpl; [discriminate|].
      intros [= <-]. by eapply uint_throw_kind.
    + unfold Reserve.nthSignatory. by rewrite Hrange.
  - by rewrite (uint_throw_kind _ _ H0).
Qed.

(** C9, on the code: the assembler throws when a signatory's voting power
    lies outside [0, 2^32), and [uint] refuses exactly those numbers; what it
    writes for a number in range is its base-16 numeral on an even number of
    digits, most significant digit first.  So the push for 256 is the byte
    pair 01 00, where the shortest little-endian push of 256 is 00 01. *)
Theorem uint_push_is_big_endian :
  (forall validators signatoryKeys v,
     v ∈ committed signatoryKeys (Reserve.getSignatorySet validators) ->
     Reserve.votingPower v < 0 \/ 2 ^ 32 <= Reserve.votingPower v ->
     Reserve.witnessScriptAsm validators signatoryKeys = Throw NumberOutOfRange)
  /\ (forall n, Reserve.uint n = Throw NumberOutOfRange <-> n < 0 \/ 2 ^ 32 <= n)
  /\ (forall n t, Reserve.uint n = Ok t ->
       HexString.Raw.to_N t 0%N = Z.to_N n /\ Nat.even (String.length t) = true)
  /\ Reserve.uint 256 = Ok "0100"%string
  /\ Buffer_fromHex "0100" = [Byte.x01; Byte.x00]
  /\ minimal_le_bytes 256 = [Byte.x00; Byte.x01].
Proof.
  split; [exact witnessScriptAsm_out_of_range|].
  split; [exact uint_throws|].
  split; [exact uint_value|].
  repeat split; reflexivity.
Qed.

Lemma uint_push_is_big_endian_witness :
  Reserve.witnessScriptAsm [("A", 2 ^ 32)]%string (<["A"%string := Fixture.key33]> ∅)
  = Throw NumberOutOfRange
  /\ Reserve.uint 256 = Ok "0100"%string.
Proof.
  destruct uint_push_is_big_endian as (Hasm & _ & _ & Hpush & _).
  split; [|exact Hpush].
  apply (Hasm _ _ (Reserve.mkValidator "A" (2 ^ 32))).
  - apply list_elem_of_filter. split.
    + exists Fixture.key33. reflexivity.
    + apply list_elem_of_here.
  - right. reflexivity.
Defined.

(** ** The disbursal builder: [buildOutgoingTx] *)

Lemma Math_ceil_div_covers (a n : Z) : 0 < n -> a <= n * Math_ceil_div a n.
Proof.
  intros Hn. unfold Math_ceil_div.
  pose proof (Z.mul_div_le (- a) n Hn). lia.
Qed.

Lemma addInputs_spec (inputs : list Reserve.Utxo) (tx : Reserve.Transaction) (total : Z) :
  Reserve.addInputs inputs tx total
  = (Reserve.mkTransaction (Reserve.ins tx ++ map toTxInput inputs) (Reserve.outs tx),
     total + Reserve.totalIn inputs).
Proof.
  revert tx total. induction inputs as [|i l IH]; intros tx total; simpl.
  - rewrite app_nil_r, Z.add_0_r. by destruct tx.
  - rewrite IH. simpl. rewrite <- app_assoc. simpl. f_equal. lia.
Qed.

Lemma addOutputs_ok (outputs : list Reserve.Withdrawal) (tx tx' : Reserve.Transaction)
    (remaining remaining' : Z) :
  Reserve.addOutputs outputs tx remaining = Ok (tx', remaining') ->
  tx' = Reserve.mkTransaction (Reserve.ins tx) (Reserve.outs tx ++ map toTxOutput outputs)
  /\ remaining' = remaining - Reserve.totalWithdrawn outputs.
Proof.
  revert tx remaining. induction outputs as [|o l IH]; intros tx remaining; simpl.
  - intros [= <- <-]. rewrite app_nil_r, Z.sub_0_r. by destruct tx.
  - destruct (remaining - Reserve.out_amount o <=? 0); [discriminate|].
    intros Hrest. apply IH in Hrest as [-> ->]. simpl.
    rewrite <- app_assoc. simpl. split; [done|lia].
Qed.

Lemma addOutputs_throws (outputs : list Reserve.Withdrawal) (tx : Reserve.Transaction)
    (remaining : Z) (k : nat) :
  (1 <= k <= length outputs)%nat ->
  remaining - Reserve.totalWithdrawn (take k outputs) <= 0 ->
  Reserve.addOutputs outputs tx remaining = Throw OutputExceedsInput.
Proof.
  revert tx remaining k. induction outputs as [|o l IH]; intros tx remaining k Hk Hle.
  - simpl in Hk. lia.
  - simpl. destruct (Z.leb_spec (remaining - Reserve.out_amount o) 0) as [|Hpos]; [done|].
    destruct k as [|k]; [lia|]. simpl in Hle, Hk.
    destruct k as [|k]; [simpl in Hle; lia|].
    apply (IH _ _ (S k)); [lia|]. lia.
Qed.

Lemma totalOut_app (l1 l2 : list Reserve.TxOutput) :
  Reserve.totalOut (l1 ++ l2) = Reserve.totalOut l1 + Reserve.totalOut l2.
Proof. induction l1 as [|o l IH]; simpl; [done|]. rewrite IH. lia. Qed.

Lemma totalOut_toTxOutput (outputs : list Reserve.Withdrawal) :
  Reserve.totalOut (map toTxOutput outputs) = Reserve.totalWithdrawn outputs.
Proof. induction outputs as [|o l IH]; simpl; [done|]. by rewrite IH. Qed.

Lemma totalOut_insert (outs : list Reserve.TxOutput) (i : nat)
    (out out' : Reserve.TxOutput) :
  outs !! i = Some out ->
  Reserve.totalOut (<[i := out']> outs)
  = Reserve.totalOut outs - Reserve.value out + Reserve.value out'.
Proof.
  revert i. induction outs as [|o l IH]; intros [|i] Hi; simpl in *; try done.
  - injection Hi as ->. lia.
  - rewrite (IH i Hi). lia.
Qed.

Lemma scripts_insert (outs : list Reserve.TxOutput) (i : nat)
    (out out' : Reserve.TxOutput) :
  outs !! i = Some out ->
  Reserve.out_script out' = Reserve.out_script out ->
  map Reserve.out_script (<[i := out']> outs) = map Reserve.out_script outs.
Proof.
  revert i. induction outs as [|o l IH]; intros [|i] Hi Hs; simpl in *; try done.
  - injection Hi as ->. by rewrite Hs.
  - by rewrite (IH i Hi Hs).
Qed.

Lemma payFee_ok (fee : Z) (n i : nat) (outs outs' : list Reserve.TxOutput) :
  Reserve.payFee fee i n outs = Ok outs' ->
  Reserve.totalOut outs' = Reserve.totalOut outs - Z.of_nat n * fee
  /\ map Reserve.out_script outs' = map Reserve.out_script outs.
Proof.
  revert i outs. induction n as [|n IH]; intros i outs; simpl Reserve.payFee.
  - intros [= <-]. split; [lia|done].
  - destruct (outs !! i) as [out|] eqn:Hi; [|discriminate].
    simpl. destruct (Reserve.value out - fee <=? 0); [discriminate|].
    intros Hrest. apply IH in Hrest as [Hsum Hscripts].
    rewrite Hsum, Hscripts.
    rewrite (totalOut_insert _ _ _ _ Hi), (scripts_insert _ _ _ _ Hi) by done.
    simpl. split; [lia|done].
Qed.

Lemma txByteLength_scripts (tx1 tx2 : Reserve.Transaction) :
  Reserve.ins tx1 = Reserve.ins tx2 ->
  map Reserve.out_script (Reserve.outs tx1) = map Reserve.out_script (Reserve.outs tx2) ->
  Fixture.txByteLength tx1 = Fixture.txByteLength tx2.
Proof.
  intros Hins Hscripts. unfold Fixture.txByteLength. rewrite Hins.
  assert (Hlen : length (Reserve.outs tx1) = length (Reserve.outs tx2)).
  { by rewrite <- (length_map Reserve.out_script), Hscripts, length_map. }
  rewrite Hlen. f_equal.
  assert (Hfold : forall outs,
    foldr (fun output sum => sum + 8 + Fixture.varSliceSize (Reserve.out_script output)) 0 outs
    = foldr (fun s sum => sum + 8 + Fixture.varSliceSize s) 0 (map Reserve.out_script outs)).
  { induction outs as [|o l IH]; simpl; [done|]. by rewrite IH. }
  by rewrite !Hfold, Hscripts.
Qed.

Section Builder.
Context `{Reserve.BitcoinJs}.



(** C5, as the code has it: a disbursal built from at least one input and
    at least one user output pays [n * ceil(max(length, 1000) / n)] for its
    [n] user outputs; the inputs equal the outputs plus that fee, and the fee
    is at least MIN_RELAY_FEE and at least the transaction's byte length. *)
Theorem buildOutgoingTx_fee_conservation (signingTx : Reserve.SigningTx)
    (validators : Reserve.ValidatorMap) (signatoryKeys : gmap string Buffer)
    (network : Reserve.BitcoinNetwork) (tx : Reserve.Transaction) :
  (forall tx1 tx2,
     Reserve.ins tx1 = Reserve.ins tx2 ->
     map Reserve.out_script (Reserve.outs tx1) = map Reserve.out_script (Reserve.outs tx2) ->
     Reserve.byteLength tx1 = Reserve.byteLength tx2) ->
  Reserve.inputs signingTx <> [] ->
  Reserve.outputs signingTx <> [] ->
  Reserve.buildOutgoingTx signingTx validators signatoryKeys network = Ok tx ->
  let n := Z.of_nat (length (Reserve.outputs signingTx)) in
  let fee :=
    n * Math_ceil_div (Z.max (Reserve.byteLength tx) Reserve.MIN_RELAY_FEE) n in
  feePaid signingTx tx = fee
  /\ Reserve.totalIn (Reserve.inputs signingTx) = Reserve.totalOut (Reserve.outs tx) + fee
  /\ fee >= Reserve.MIN_RELAY_FEE
  /\ fee >= Reserve.byteLength tx.
Proof.
  intros Hsize _ Hsome. unfold Reserve.buildOutgoingTx.
  rewrite addInputs_spec. simpl.
  destruct (Reserve.addOutputs _ _ _) as [[tx1 remaining]|] eqn:Hadd; simpl; [|discriminate].
  apply addOutputs_ok in Hadd as [-> ->]. simpl.
  destruct (Reserve.createOutput _ _ _) as [p2ss|]; simpl; [|discriminate].
  destruct (Reserve.payFee _ _ _ _) as [outs'|] eqn:Hpay; simpl; [|discriminate].
  intros [= <-]. apply payFee_ok in Hpay as [Hsum Hscripts].
  rewrite totalOut_app, totalOut_toTxOutput in Hsum. simpl in Hsum.
  match type of Hsum with
  | context [Reserve.byteLength ?t] =>
      rewrite (Hsize (Reserve.mkTransaction (map toTxInput (Reserve.inputs signingTx)) outs') t)
        by done
  end.
  set (measured := Reserve.byteLength _) in *.
  assert (Hn : 0 < Z.of_nat (length (Reserve.outputs signingTx))).
  { destruct (Reserve.outputs signingTx); [done|simpl; lia]. }
  pose proof (Math_ceil_div_covers (Z.max measured Reserve.MIN_RELAY_FEE) _ Hn) as Hcover.
  unfold feePaid. simpl. repeat split; lia.
Qed.

End Builder.



Lemma buildOutgoingTx_fee_conservation_witness :
  exists tx,
    Reserve.buildOutgoingTx (H := Fixture.bitcoinjs)
      (Reserve.mkSigningTx [Reserve.mkUtxo Fixture.txidA 0 100000]
         [Reserve.mkWithdrawal [Byte.x51] 30000; Reserve.mkWithdrawal [Byte.x52] 20000])
      [(Fixture.validatorB, 10)] (<[Fixture.validatorB := Fixture.key33]> ∅)
      Reserve.regtest = Ok tx
    /\ 100000 = Reserve.totalOut (Reserve.outs tx) + 1000
    /\ map Reserve.value (Reserve.outs tx) = [29500; 19500; 50000].
Proof.
  eexists. split; [vm_compute; reflexivity|].
  split; [|reflexivity].
  refine (proj1 (proj2 (buildOutgoingTx_fee_conservation (H := Fixture.bitcoinjs)
    (Reserve.mkSigningTx [Reserve.mkUtxo Fixture.txidA 0 100000]
       [Reserve.mkWithdrawal [Byte.x51] 30000; Reserve.mkWithdrawal [Byte.x52] 20000])
    [(Fixture.validatorB, 10)] (<[Fixture.validatorB := Fixture.key33]> ∅)
    Reserve.regtest _ txByteLength_scripts _ _ _))).
  - discriminate.
  - discriminate.
  - vm_compute. reflexivity.
Defined.

(** C5, as stated, at a concrete disbursal: one input of 7000 and no user
    output.  The build succeeds and the outputs carry all 7000, so the fee
    paid is 0, below MIN_RELAY_FEE. *)
Lemma buildOutgoingTx_fee_counterexample :
  exists tx,
    Reserve.buildOutgoingTx (H := Fixture.bitcoinjs)
      (Reserve.mkSigningTx [Reserve.mkUtxo Fixture.txidA 0 7000] [])
      [(Fixture.validatorB, 10)] (<[Fixture.validatorB := Fixture.key33]> ∅)
      Reserve.regtest = Ok tx
    /\ feePaid (Reserve.mkSigningTx [Reserve.mkUtxo Fixture.txidA 0 7000] []) tx = 0
    /\ ~ (feePaid (Reserve.mkSigningTx [Reserve.mkUtxo Fixture.txidA 0 7000] []) tx
          >= Reserve.MIN_RELAY_FEE).
Proof.
  eexists. split; [vm_compute; reflexivity|].
  split; [reflexivity|]. vm_compute. intros Hge. by apply Hge.
Qed.

(** ** The peg handlers: [depositTx] and [signatoryKeyTx] *)

Section Handlers.
Context `{Peg.PegLibs}.


Lemma depositTx_already_processed (state : Peg.State) (transaction : Buffer)
    (proof : Peg.MerkleProof) (context : Peg.Context) (bitcoinTx : Peg.BitcoinTx) :
  Peg.transaction_decode transaction = Ok bitcoinTx ->
  Peg.processedTxs state !! Peg.toBase64 (Peg.getTxHash bitcoinTx) = Some true ->
  Peg.depositTx transaction proof context state = (state, Throw AlreadyProcessed).
Proof.
  intros Hdecode Hseen. run_handler. rewrite Hdecode.
  by rewrite bool_decide_eq_true_2.
Qed.

(** What [depositTx] does to a transaction it has not seen: it marks the
    txid, and only then looks at the header and the proof. *)
Lemma depositTx_fresh (state : Peg.State) (transaction : Buffer)
    (proof : Peg.MerkleProof) (context : Peg.Context) (bitcoinTx : Peg.BitcoinTx) :
  Peg.transaction_decode transaction = Ok bitcoinTx ->
  Peg.processedTxs state !! Peg.toBase64 (Peg.getTxHash bitcoinTx) <> Some true ->
  Peg.depositTx transaction proof context state
  = (markProcessed state (Peg.toBase64 (Peg.getTxHash bitcoinTx)),
     header <-! Peg.Blockchain_getByHeight (Peg.chain state) (Peg.proof_height proof) ;;
     txids <-! Peg.verifyMerkleProof (Peg.set_merkleRoot proof (Peg.merkleRoot header)) ;;
     if bool_decide (length txids ≠ 1%nat) then Throw ExpectedOneTxid
     else match txids !! 0%nat with
          | None => Throw TypeError
          | Some txid0 =>
              if bool_decide (txid0 = Peg.getTxHash bitcoinTx) then Ok tt
              else Throw ProofMismatch
          end).
Proof.
  intros Hdecode Hnew. run_handler. rewrite Hdecode.
  rewrite bool_decide_eq_false_2 by done. simpl.
  destruct (Peg.Blockchain_getByHeight _ _) as [header|]; simpl; [|done].
  destruct (Peg.verifyMerkleProof _) as [txids|]; simpl; [|done].
  destruct (bool_decide (length txids ≠ 1%nat)); [done|].
  destruct (txids !! 0%nat) as [txid0|]; [|done].
  by destruct (bool_decide (txid0 = Peg.getTxHash bitcoinTx)).
Qed.

Lemma depositTx_success_inv (state state' : Peg.State) (transaction : Buffer)
    (proof : Peg.MerkleProof) (context : Peg.Context) :
  Peg.depositTx transaction proof context state = (state', Ok tt) ->
  exists bitcoinTx header,
    Peg.transaction_decode transaction = Ok bitcoinTx
    /\ Peg.processedTxs state !! Peg.toBase64 (Peg.getTxHash bitcoinTx) <> Some true
    /\ Peg.Blockchain_getByHeight (Peg.chain state) (Peg.proof_height proof) = Ok header
    /\ Peg.verifyMerkleProof (Peg.set_merkleRoot proof (Peg.merkleRoot header))
       = Ok [Peg.getTxHash bitcoinTx]
    /\ state' = markProcessed state (Peg.toBase64 (Peg.getTxHash bitcoinTx)).
Proof.
  destruct (Peg.transaction_decode transaction) as [bitcoinTx|e] eqn:Hdecode.
  - destruct (decide (Peg.processedTxs state !! Peg.toBase64 (Peg.getTxHash bitcoinTx)
                      = Some true)) as [Hseen|Hnew].
    + rewrite (depositTx_already_processed _ _ _ _ _ Hdecode Hseen). discriminate.
    + rewrite (depositTx_fresh _ _ _ _ _ Hdecode Hnew).
      destruct (Peg.Blockchain_getByHeight _ _) as [header|] eqn:Hheader;
        simpl; [|discriminate].
      destruct (Peg.verifyMerkleProof _) as [txids|] eqn:Hproof; simpl; [|discriminate].
      destruct txids as [|txid0 [|txid1 txids]]; simpl; try discriminate.
      destruct (decide (txid0 = Peg.getTxHash bitcoinTx)) as [->|Hne].
      * intros [= <-]. by exists bitcoinTx, header.
      * rewrite bool_decide_eq_false_2 by done. discriminate.
  - run_handler. rewrite Hdecode. discriminate.
Qed.

Lemma depositTx_accepts (state : Peg.State) (transaction : Buffer)
    (proof : Peg.MerkleProof) (context : Peg.Context) (bitcoinTx : Peg.BitcoinTx)
    (header : Peg.Header) :
  Peg.transaction_decode transaction = Ok bitcoinTx ->
  Peg.processedTxs state !! Peg.toBase64 (Peg.getTxHash bitcoinTx) <> Some true ->
  Peg.Blockchain_getByHeight (Peg.chain state) (Peg.proof_height proof) = Ok header ->
  Peg.verifyMerkleProof (Peg.set_merkleRoot proof (Peg.merkleRoot header))
    = Ok [Peg.getTxHash bitcoinTx] ->
  Peg.depositTx transaction proof context state
  = (markProcessed state (Peg.toBase64 (Peg.getTxHash bitcoinTx)), Ok tt).
Proof.
  intros Hdecode Hnew Hheader Hproof.
  rewrite (depositTx_fresh _ _ _ _ _ Hdecode Hnew), Hheader. simpl.
  rewrite Hproof. simpl. by rewrite bool_decide_eq_true_2.
Qed.


(** C2, on the code: a deposit is accepted exactly when it decodes, its
    txid is not marked, the header exists and the proof yields that txid;
    nothing is asked of the transaction's outputs.  An accepted deposit
    changes one thing, the mark on its txid: the UTXO list is the one the
    handler was given, and no ledger is called. *)
Theorem depositTx_accepted_state (state state' : Peg.State) (transaction : Buffer)
    (proof : Peg.MerkleProof) (context : Peg.Context) :
  Peg.depositTx transaction proof context state = (state', Ok tt) <->
  exists bitcoinTx header,
    Peg.transaction_decode transaction = Ok bitcoinTx
    /\ Peg.processedTxs state !! Peg.toBase64 (Peg.getTxHash bitcoinTx) <> Some true
    /\ Peg.Blockchain_getByHeight (Peg.chain state) (Peg.proof_height proof) = Ok header
    /\ Peg.verifyMerkleProof (Peg.set_merkleRoot proof (Peg.merkleRoot header))
       = Ok [Peg.getTxHash bitcoinTx]
    /\ state' = markProcessed state (Peg.toBase64 (Peg.getTxHash bitcoinTx))
    /\ Peg.utxos state' = Peg.utxos state.
Proof.
  split.
  - intros Hok.
    apply depositTx_success_inv in Hok
      as (bitcoinTx & header & Hdecode & Hnew & Hheader & Hproof & ->).
    by exists bitcoinTx, header.
  - intros (bitcoinTx & header & Hdecode & Hnew & Hheader & Hproof & -> & _).
    by apply depositTx_accepts with header.
Qed.

(** C6, on the code: the second submission of an accepted deposit throws
    'Deposit transaction has already been processed' and changes nothing; the
    UTXO list has the length it had before the first submission. *)
Theorem depositTx_twice (state state1 : Peg.State) (transaction : Buffer)
    (proof : Peg.MerkleProof) (context : Peg.Context) :
  Peg.depositTx transaction proof context state = (state1, Ok tt) ->
  Peg.depositTx transaction proof context state1 = (state1, Throw AlreadyProcessed)
  /\ length (Peg.utxos state1) = length (Peg.utxos state).
Proof.
  intros Hok.
  apply depositTx_success_inv in Hok as (bitcoinTx & header & Hdecode & _ & _ & _ & ->).
  split; [|done].
  apply (depositTx_already_processed _ _ _ _ bitcoinTx Hdecode).
  simpl. apply lookup_insert_eq.
Qed.

(** C8, on the code: a 33-byte key that the secp256k1 check refuses, signed
    by the validator at the given index, is admitted and written into the
    registry; [commitPubkey], the client's path to the same message, refuses
    that key. *)
Theorem signatoryKeyTx_admits_invalid_point `{Signatory.SignatoryLibs}
    (state : Peg.State) (context : Peg.Context) (signatoryIndex : Z)
    (signatoryKey signature : Buffer) (entry : Reserve.Validator)
    (privValidator : Signatory.ValidatorKey) :
  Signatory.publicKeyVerify signatoryKey = false ->
  length signatoryKey = 33%nat ->
  length signature = 64%nat ->
  Peg.array_get (Reserve.getSignatorySet (Peg.validators context)) signatoryIndex
    = Some entry ->
  Peg.ed25519_verify signature signatoryKey (Peg.fromBase64 (Reserve.validatorKey entry))
    = true ->
  Peg.signatoryKeyTx signatoryIndex signatoryKey signature context state
    = (commitKey state (Reserve.validatorKey entry) signatoryKey, Ok tt)
  /\ Peg.signatoryKeys (commitKey state (Reserve.validatorKey entry) signatoryKey)
       !! Reserve.validatorKey entry = Some signatoryKey
  /\ Signatory.commitPubkey (Peg.validators context) privValidator signatoryKey
     = Throw InvalidSignatoryPublicKey.
Proof.
  intros Hpoint Hkey Hsig Hentry Hverify. repeat split.
  - run_handler. unfold Peg.SIGNATORY_KEY_LENGTH, Peg.SIGNATURE_LENGTH.
    rewrite Hkey, Hsig, Hentry. simpl. by rewrite Hverify.
  - simpl. apply lookup_insert_eq.
  - unfold Signatory.commitPubkey. by rewrite Hpoint.
Qed.

End Handlers.


Lemma depositTx_accepted_state_witness :
  let state := Peg.initializer Fixture.genesis in
  let state' := markProcessed state (Buffer_toHex Fixture.txidA) in
  Peg.depositTx (H := Fixture.peglibs) Fixture.txidA Fixture.proofA (Peg.mkContext [])
    state = (state', Ok tt)
  /\ Peg.utxos state' = [].
Proof.
  intros state state'. split; [|reflexivity].
  apply (proj2 (depositTx_accepted_state (H := Fixture.peglibs) state state'
                  Fixture.txidA Fixture.proofA (Peg.mkContext []))).
  exists Fixture.txidA, Fixture.genesis.
  repeat split; try reflexivity.
  vm_compute. discriminate.
Defined.

Lemma depositTx_twice_witness :
  let state1 := markProcessed (Peg.initializer Fixture.genesis)
                  (Buffer_toHex Fixture.txidA) in
  Peg.depositTx (H := Fixture.peglibs) Fixture.txidA Fixture.proofA (Peg.mkContext [])
    state1 = (state1, Throw AlreadyProcessed)
  /\ length (Peg.utxos state1) = 0%nat.
Proof.
  apply (depositTx_twice (H := Fixture.peglibs) (Peg.initializer Fixture.genesis)).
  vm_compute. reflexivity.
Defined.

Lemma signatoryKeyTx_admits_invalid_point_witness :
  let state := Peg.initializer Fixture.genesis in
  let context := Peg.mkContext [(Fixture.validatorB, 10)] in
  let signature := repeat Byte.x0b 32 ++ repeat Byte.x00 32 in
  @Signatory.publicKeyVerify Fixture.signatorylibs Fixture.zeroKey33 = false
  /\ Peg.signatoryKeyTx (H := Fixture.peglibs) 0 Fixture.zeroKey33 signature context state
     = (commitKey state Fixture.validatorB Fixture.zeroKey33, Ok tt)
  /\ Signatory.commitPubkey (H := Fixture.signatorylibs) (Peg.validators context)
       (Signatory.mkValidatorKey Fixture.validatorB EmptyString) Fixture.zeroKey33
     = Throw InvalidSignatoryPublicKey.
Proof.
  intros state context signature. split; [reflexivity|].
  destruct (signatoryKeyTx_admits_invalid_point (H := Fixture.peglibs)
              (H0 := Fixture.signatorylibs) state context 0 Fixture.zeroKey33 signature
              (Reserve.mkValidator Fixture.validatorB 10)
              (Signatory.mkValidatorKey Fixture.validatorB EmptyString))
    as (Hadmit & _ & Hclient).
  - reflexivity.
  - reflexivity.
  - reflexivity.
  - reflexivity.
  - vm_compute. reflexivity.
  - split; [exact Hadmit|exact Hclient].
Defined.

(** * Further properties *)

(** ** The selector *)

Lemma Array_sort_length {A : Type} (cmp : A -> A -> Z) (l : list A) :
  length (Array_sort cmp l) = length l.
Proof. apply Permutation_length, Array_sort_perm. Qed.

(** The selector returns [min(76, number of entries)] validators, each one
    an entry of the map with the power the map gives it. *)
Theorem getSignatorySet_size (validators : Reserve.ValidatorMap) :
  length (Reserve.getSignatorySet validators)
  = Nat.min Reserve.MAX_SIGNATORIES (length validators)
  /\ forall v, v ∈ Reserve.getSignatorySet validators ->
               (Reserve.validatorKey v, Reserve.votingPower v) ∈ validators.
Proof.
  unfold Reserve.getSignatorySet. split.
  - by rewrite length_take, length_map, Array_sort_length.
  - intros v Hv. apply elem_of_take in Hv as (i & Hi & _).
    apply list_elem_of_lookup_2 in Hi.
    apply (list_elem_of_fmap (fun e : string * Z => Reserve.mkValidator e.1 e.2)) in Hi
      as ([k p] & -> & He).
    simpl. by rewrite <- (Array_sort_perm Reserve.compareEntries validators).
Qed.

(** The selection does not depend on the order in which the validators
    were entered into the map. *)
Theorem getSignatorySet_insertion_order (validators validators' : Reserve.ValidatorMap) :
  Permutation validators validators' ->
  Reserve.getSignatorySet validators = Reserve.getSignatorySet validators'.
Proof.
  intros Hperm. unfold Reserve.getSignatorySet. do 2 f_equal.
  apply Array_sort_canonical; [|apply sorted_entries].
  rewrite Array_sort_perm. done.
Qed.

Lemma getSignatorySet_insertion_order_witness :
  Reserve.getSignatorySet [("K2", 5); ("K0", 7); ("K1", 5)]%string
  = Reserve.getSignatorySet [("K0", 7); ("K1", 5); ("K2", 5)]%string.
Proof.
  apply getSignatorySet_insertion_order.
  apply perm_trans with [("K0", 7); ("K2", 5); ("K1", 5)]%string.
  - apply perm_swap.
  - apply perm_skip, perm_swap.
Defined.

(** Truncation drops the weakest: an entry of the map that is not selected
    has at most the voting power of every validator that is. *)
Theorem getSignatorySet_keeps_strongest (validators : Reserve.ValidatorMap)
    (v : Reserve.Validator) (e : string * Z) :
  v ∈ Reserve.getSignatorySet validators ->
  e ∈ validators ->
  toValidator e ∉ Reserve.getSignatorySet validators ->
  e.2 <= Reserve.votingPower v.
Proof.
  unfold Reserve.getSignatorySet.
  change (fun e : string * Z => Reserve.mkValidator e.1 e.2) with toValidator.
  set (sorted := Array_sort Reserve.compareEntries validators).
  intros Hv He Hout.
  rewrite <- fmap_take in Hv, Hout.
  apply (list_elem_of_fmap toValidator) in Hv as (a & -> & Ha).
  assert (Hdrop : e ∈ drop Reserve.MAX_SIGNATORIES sorted).
  { rewrite <- (Array_sort_perm Reserve.compareEntries validators) in He.
    fold sorted in He.
    rewrite <- (take_drop Reserve.MAX_SIGNATORIES sorted) in He.
    apply elem_of_app in He as [Hin|Hin]; [|done].
    destruct Hout. by apply list_elem_of_fmap_2. }
  pose proof (sorted_entries validators) as Hsorted. fold sorted in Hsorted.
  rewrite <- (take_drop Reserve.MAX_SIGNATORIES sorted) in Hsorted.
  pose proof (StronglySorted_app_1_elem_of _ _ _ _ _ Hsorted Ha Hdrop) as Hcmp.
  apply compareEntries_le in Hcmp. simpl. lia.
Qed.

Lemma getSignatorySet_keeps_strongest_witness :
  let validators := map (fun n => (String (ascii_of_nat (48 + n)) EmptyString, Z.of_nat n))
                        (seq 0 77) in
  let weakest := (String (ascii_of_nat 48) EmptyString, 0) in
  let v := Reserve.mkValidator (String (ascii_of_nat 49) EmptyString) 1 in
  length validators = 77%nat
  /\ v ∈ Reserve.getSignatorySet validators
  /\ (toValidator weakest ∉ Reserve.getSignatorySet validators)
  /\ weakest.2 <= Reserve.votingPower v.
Proof.
  intros validators weakest v.
  assert (Hv : v ∈ Reserve.getSignatorySet validators).
  { apply list_elem_of_In. vm_compute. tauto. }
  assert (Hout : toValidator weakest ∉ Reserve.getSignatorySet validators).
  { intros Hin. apply list_elem_of_In in Hin. vm_compute in Hin.
    repeat (destruct Hin as [Hin|Hin]; [discriminate Hin|]). exact Hin. }
  split; [reflexivity|]. split; [exact Hv|]. split; [exact Hout|].
  apply (getSignatorySet_keeps_strongest validators v weakest Hv); [|exact Hout].
  apply list_elem_of_here.
Defined.

(** ** The threshold *)




(** ** The witness script, continued *)

Lemma uint_ok (n : Z) : 0 <= n < 2 ^ 32 -> exists t, Reserve.uint n = Ok t.
Proof.
  intros Hn. destruct (Reserve.uint n) as [t|e] eqn:Hu; [by exists t|].
  pose proof (uint_throw_kind _ _ Hu) as ->. apply uint_throws in Hu. lia.
Qed.

Lemma uint_ok_range (n : Z) (t : string) : Reserve.uint n = Ok t -> 0 <= n < 2 ^ 32.
Proof.
  intros Hu. destruct (decide (0 <= n < 2 ^ 32)) as [|Hout]; [done|].
  assert (Hthrow : Reserve.uint n = Throw NumberOutOfRange) by (apply uint_throws; lia).
  congruence.
Qed.

Lemma nthSignatory_throw_kind (s : Reserve.SignatoryInfo) (e : error) :
  Reserve.nthSignatory s = Throw e -> e = NumberOutOfRange.
Proof.
  unfold Reserve.nthSignatory.
  destruct (Reserve.uint (Reserve.sigVotingPower s)) eqn:Hu; simpl; [discriminate|].
  intros [= <-]. by eapply uint_throw_kind.
Qed.

Lemma mapR_throw_kind {A B : Type} (f : A -> result B) (l : list A) (e e0 : error) :
  (forall y e', f y = Throw e' -> e' = e0) -> mapR f l = Throw e -> e = e0.
Proof.
  intros Hkind. induction l as [|y l IH]; simpl; [discriminate|].
  destruct (f y) as [b|e'] eqn:Hy; simpl.
  - destruct (mapR f l); simpl; [discriminate|]. intros [= <-]. by apply IH.
  - intros [= <-]. by eapply Hkind.
Qed.

Lemma mapR_ok_inv {A B : Type} (f : A -> result B) (l : list A) (ys : list B) :
  mapR f l = Ok ys -> Forall2 (fun x y => f x = Ok y) l ys.
Proof.
  revert ys. induction l as [|x l IH]; simpl; intros ys.
  - intros [= <-]. constructor.
  - destruct (f x) as [y|] eqn:Hx; simpl; [|discriminate].
    destruct (mapR f l) as [ys'|]; simpl; [|discriminate].
    intros [= <-]. constructor; [done|by apply IH].
Qed.

Lemma mapR_ok {A B : Type} (f : A -> result B) (l : list A) :
  Forall (fun x => exists y, f x = Ok y) l -> exists ys, mapR f l = Ok ys.
Proof.
  induction 1 as [|x l [y Hx] _ [ys IH]]; simpl; [by eexists|].
  rewrite Hx, IH. simpl. by eexists.
Qed.

Lemma signatoriesOf_committed (validators : Reserve.ValidatorMap)
    (signatoryKeys : gmap string Buffer) :
  Reserve.signatoriesOf validators signatoryKeys
  = map (signatoryInfoOf signatoryKeys)
      (committed signatoryKeys (Reserve.getSignatorySet validators)).
Proof. reflexivity. Qed.

Lemma nthSignatory_signatoryInfoOf (signatoryKeys : gmap string Buffer)
    (v : Reserve.Validator) :
  Reserve.nthSignatory (signatoryInfoOf signatoryKeys v)
  = (vp <-! Reserve.uint (Reserve.votingPower v) ;;
     Ok ["OP_SWAP"; Reserve.pubkey (signatoryInfoOf signatoryKeys v); "OP_CHECKSIG";
         "OP_IF"; vp; "OP_ADD"; "OP_ENDIF"])%string.
Proof. reflexivity. Qed.

(** Script assembly fails with the TypeError of [signatories[0]] exactly
    when no selected validator has a committed key. *)
Theorem witnessScriptAsm_empty_set (validators : Reserve.ValidatorMap)
    (signatoryKeys : gmap string Buffer) :
  Reserve.witnessScriptAsm validators signatoryKeys = Throw TypeError
  <-> committed signatoryKeys (Reserve.getSignatorySet validators) = [].
Proof.
  unfold Reserve.witnessScriptAsm. rewrite signatoriesOf_committed.
  destruct (committed signatoryKeys (Reserve.getSignatorySet validators)) as [|v rest].
  - done.
  - split; [|discriminate]. simpl.
    destruct (Reserve.uint (Reserve.votingPower v)) as [t0|e0] eqn:H0; simpl.
    + destruct (mapR _ _) as [r|e] eqn:Hrest; simpl.
      * unfold Reserve.compare.
        destruct (Reserve.uint (Reserve.getVotingPowerThreshold _)) eqn:Ht; simpl;
          [discriminate|].
        intros [= ->]. by apply uint_throw_kind in Ht.
      * intros [= ->].
        by apply (mapR_throw_kind _ _ _ NumberOutOfRange nthSignatory_throw_kind) in Hrest.
    + intros [= ->]. by apply uint_throw_kind in H0.
Qed.

(** Script assembly succeeds exactly when some selected validator has a
    committed key, every such validator's voting power lies in [0, 2^32),
    and so does the threshold. *)
Theorem witnessScriptAsm_succeeds (validators : Reserve.ValidatorMap)
    (signatoryKeys : gmap string Buffer) :
  let signers := committed signatoryKeys (Reserve.getSignatorySet validators) in
  (exists asm, Reserve.witnessScriptAsm validators signatoryKeys = Ok asm)
  <-> signers <> []
      /\ Forall (fun v => 0 <= Reserve.votingPower v < 2 ^ 32) signers
      /\ twoThirds (sumZ (map Reserve.votingPower signers)) < 2 ^ 32.
Proof.
  intros signers. unfold Reserve.witnessScriptAsm.
  rewrite getVotingPowerThreshold_twoThirds, signatoriesOf_votingPower.
  rewrite signatoriesOf_committed. fold signers.
  destruct signers as [|v rest].
  { split; [intros [asm Hasm]; discriminate Hasm|intros [Hne _]; by destruct Hne]. }
  set (thr := twoThirds _).
  change ((map (signatoryInfoOf signatoryKeys) (v :: rest)) !! 0%nat)
    with (Some (signatoryInfoOf signatoryKeys v)).
  change (drop 1 (map (signatoryInfoOf signatoryKeys) (v :: rest)))
    with (map (signatoryInfoOf signatoryKeys) rest).
  unfold Reserve.firstSignatory.
  change (Reserve.sigVotingPower (signatoryInfoOf signatoryKeys v))
    with (Reserve.votingPower v).
  split.
  - intros [asm Hasm]. split; [done|].
    destruct (Reserve.uint (Reserve.votingPower v)) as [t0|] eqn:H0; cbn [rbind] in Hasm;
      [|discriminate].
    destruct (mapR _ _) as [r|] eqn:Hrest; cbn [rbind] in Hasm; [|discriminate].
    unfold Reserve.compare in Hasm.
    destruct (Reserve.uint thr) as [t|] eqn:Ht; cbn [rbind] in Hasm; [|discriminate].
    split; [|apply uint_ok_range in Ht; lia].
    constructor; [by eapply uint_ok_range|].
    apply mapR_ok_inv in Hrest. apply Forall_forall. intros u Hu.
    apply (list_elem_of_fmap_2 (signatoryInfoOf signatoryKeys)) in Hu.
    apply list_elem_of_lookup in Hu as [i Hi].
    destruct (Forall2_lookup_l _ _ _ _ _ Hrest Hi) as (y & _ & Hy).
    rewrite nthSignatory_signatoryInfoOf in Hy.
    destruct (Reserve.uint (Reserve.votingPower u)) eqn:Hu'; [|discriminate].
    by eapply uint_ok_range.
  - intros (_ & Hall & Hthr). apply Forall_cons in Hall as [Hv Hrest].
    destruct (uint_ok _ Hv) as [t0 ->]. cbn [rbind].
    assert (Hok : exists r, mapR Reserve.nthSignatory
                              (map (signatoryInfoOf signatoryKeys) rest) = Ok r).
    { apply mapR_ok. apply Forall_fmap. eapply Forall_impl; [exact Hrest|].
      intros u Hu. simpl. rewrite nthSignatory_signatoryInfoOf.
      destruct (uint_ok _ Hu) as [t ->]. simpl. by eexists. }
    destruct Hok as [r ->]. cbn [rbind].
    assert (Hthr0 : 0 <= thr).
    { assert (Hsum : 0 <= sumZ (map Reserve.votingPower (v :: rest))).
      { clear -Hv Hrest. simpl. induction Hrest as [|u l Hu _ IH]; simpl in *; lia. }
      unfold thr, twoThirds, Math_ceil_div.
      pose proof (Z.div_mod (- (2 * sumZ (map Reserve.votingPower (v :: rest)))) 3
                    ltac:(lia)).
      pose proof (Z.mod_pos_bound (- (2 * sumZ (map Reserve.votingPower (v :: rest)))) 3
                    ltac:(lia)).
      lia. }
    unfold Reserve.compare. destruct (uint_ok thr ltac:(lia)) as [t ->]. cbn [rbind].
    by eexists.
Qed.

Lemma trim_nonempty (tokens : list string) :
  Forall (fun t => t <> EmptyString) tokens -> Reserve.trim tokens = tokens.
Proof.
  unfold Reserve.trim. induction 1 as [|t l Ht _ IH]; [done|].
  by rewrite filter_cons, decide_True, IH.
Qed.

Lemma Buffer_toHex_nonempty (buf : Buffer) : buf <> [] -> Buffer_toHex buf <> EmptyString.
Proof. destruct buf; [done|discriminate]. Qed.

Lemma nthSignatory_tokens (signatories : list Reserve.SignatoryInfo)
    (r : list (list string)) :
  Forall2 (fun s y => Reserve.nthSignatory s = Ok y) signatories r ->
  length (concat r) = (7 * length signatories)%nat
  /\ (Forall (fun s => Reserve.pubkey s <> EmptyString) signatories ->
      Forall (fun t => t <> EmptyString) (concat r))
  /\ forall s, s ∈ signatories -> Reserve.pubkey s ∈ concat r.
Proof.
  induction 1 as [|s y l r Hs _ (IHlen & IHne & IHin)]; simpl.
  - split; [done|]. split; [done|]. intros s Hs. by apply not_elem_of_nil in Hs.
  - unfold Reserve.nthSignatory in Hs.
    destruct (Reserve.uint (Reserve.sigVotingPower s)) as [t|] eqn:Ht; [|discriminate].
    simpl in Hs. injection Hs as <-. pose proof (uint_nonempty _ _ Ht) as Htne.
    split; [simpl; lia|]. split.
    + intros Hall. apply Forall_cons in Hall as [Hpk Hall]. simpl.
      repeat (constructor; [done|]). by apply IHne.
    + intros s' Hs'. apply elem_of_cons in Hs' as [->|Hs'].
      * simpl. apply list_elem_of_further, list_elem_of_here.
      * apply elem_of_app. right. by apply IHin.
Qed.

(** When every committed key is a non-empty Buffer, the emitted script has
    seven tokens per signatory and two for the comparison, ends in
    OP_GREATERTHAN, and carries the hexadecimal of each signatory's key. *)
Theorem witnessScriptAsm_tokens (validators : Reserve.ValidatorMap)
    (signatoryKeys : gmap string Buffer) (asm : list string) :
  let signers := committed signatoryKeys (Reserve.getSignatorySet validators) in
  Forall (fun v => signatoryKeys !! Reserve.validatorKey v <> Some []) signers ->
  Reserve.witnessScriptAsm validators signatoryKeys = Ok asm ->
  length asm = (7 * length signers + 2)%nat
  /\ last asm = Some "OP_GREATERTHAN"%string
  /\ forall v key, v ∈ signers ->
       signatoryKeys !! Reserve.validatorKey v = Some key -> Buffer_toHex key ∈ asm.
Proof.
  intros signers Hkeys. unfold Reserve.witnessScriptAsm.
  rewrite signatoriesOf_committed. fold signers.
  assert (Hpk : Forall (fun s => Reserve.pubkey s <> EmptyString)
                  (map (signatoryInfoOf signatoryKeys) signers)).
  { apply Forall_fmap. apply Forall_forall. intros v Hv. simpl.
    rewrite Forall_forall in Hkeys. specialize (Hkeys v Hv).
    apply Buffer_toHex_nonempty.
    apply list_elem_of_filter in Hv as [[key Hsome] _].
    unfold Buffer in *. rewrite Hsome in Hkeys |- *. simpl. congruence. }
  set (thrv := Reserve.getVotingPowerThreshold _). clearbody thrv.
  destruct signers as [|v rest]; [discriminate|].
  change ((map (signatoryInfoOf signatoryKeys) (v :: rest)) !! 0%nat)
    with (Some (signatoryInfoOf signatoryKeys v)).
  change (drop 1 (map (signatoryInfoOf signatoryKeys) (v :: rest)))
    with (map (signatoryInfoOf signatoryKeys) rest).
  unfold Reserve.firstSignatory.
  destruct (Reserve.uint (Reserve.sigVotingPower (signatoryInfoOf signatoryKeys v)))
    as [t0|] eqn:H0; cbn [rbind]; [|discriminate].
  destruct (mapR _ _) as [r|] eqn:Hrest; cbn [rbind]; [|discriminate].
  unfold Reserve.compare.
  destruct (Reserve.uint thrv) as [t|] eqn:Ht; cbn [rbind]; [|discriminate].
  intros [= <-].
  apply mapR_ok_inv, nthSignatory_tokens in Hrest as (Hlen & Hne & Hin).
  apply Forall_cons in Hpk as [Hpk0 Hpkrest]. specialize (Hne Hpkrest).
  pose proof (uint_nonempty _ _ H0) as Ht0. pose proof (uint_nonempty _ _ Ht) as Htne.
  rewrite trim_nonempty.
  2:{ repeat (apply Forall_cons; split; [done|]).
      apply Forall_app. split; [done|]. repeat (constructor; [done|]). done. }
  split; [|split].
  - simpl. rewrite length_app, Hlen, length_map. simpl. lia.
  - change [t; "OP_GREATERTHAN"%string] with ([t] ++ ["OP_GREATERTHAN"%string]).
    rewrite app_assoc, !app_comm_cons. apply last_snoc.
  - intros u key Hu Hk.
    assert (Hhex : Buffer_toHex key = Reserve.pubkey (signatoryInfoOf signatoryKeys u)).
    { simpl. unfold Buffer in *. by rewrite Hk. }
    rewrite Hhex. apply elem_of_cons in Hu as [->|Hu].
    + apply list_elem_of_here.
    + do 7 apply list_elem_of_further. apply elem_of_app. left. apply Hin.
      by apply list_elem_of_fmap_2.
Qed.

Lemma witnessScriptAsm_tokens_witness :
  exists asm,
    Reserve.witnessScriptAsm [("A", 10); ("B", 10)]%string
      (<["A"%string := Fixture.key33]> (<["B"%string := Fixture.key33]> ∅)) = Ok asm
    /\ length asm = 16%nat.
Proof.
  eexists. split; [vm_compute; reflexivity|].
  refine (proj1 (witnessScriptAsm_tokens [("A", 10); ("B", 10)]%string
    (<["A"%string := Fixture.key33]> (<["B"%string := Fixture.key33]> ∅)) _ _ _)).
  - repeat constructor; vm_compute; discriminate.
  - vm_compute. reflexivity.
Defined.

(** ** [createScriptSig] *)


(** ** The disbursal builder, continued *)

Lemma list_insert_middle {A : Type} (l1 l2 : list A) (x y : A) :
  <[length l1 := y]> (l1 ++ x :: l2) = l1 ++ y :: l2.
Proof. induction l1 as [|a l1 IH]; simpl; [done|]. by rewrite IH. Qed.

Lemma payFee_closed (fee : Z) (pre mid post : list Reserve.TxOutput) :
  Reserve.payFee fee (length pre) (length mid) (pre ++ mid ++ post)
  = if forallb (fun o => 0 <? Reserve.value o - fee) mid
    then Ok (pre ++ map (chargeFee fee) mid ++ post)
    else Throw OutputBelowFee.
Proof.
  revert pre. induction mid as [|o mid IH]; intros pre; simpl; [done|].
  rewrite list_lookup_middle by done. simpl.
  destruct (Z.leb_spec (Reserve.value o - fee) 0) as [Hle|Hgt].
  - by rewrite (proj2 (Z.ltb_ge 0 _) Hle).
  - rewrite (proj2 (Z.ltb_lt 0 _) Hgt). simpl.
    rewrite list_insert_middle.
    specialize (IH (pre ++ [chargeFee fee o])).
    rewrite length_app in IH. simpl in IH. rewrite Nat.add_1_r in IH.
    rewrite <- !app_assoc in IH. simpl in IH. exact IH.
Qed.


Lemma addOutputs_ok_affordable (outputs : list Reserve.Withdrawal)
    (tx tx' : Reserve.Transaction) (remaining remaining' : Z) :
  Reserve.addOutputs outputs tx remaining = Ok (tx', remaining') ->
  forall k, (1 <= k <= length outputs)%nat ->
            0 < remaining - Reserve.totalWithdrawn (take k outputs).
Proof.
  intros Hok k Hk.
  destruct (Z.lt_ge_cases 0 (remaining - Reserve.totalWithdrawn (take k outputs)))
    as [|Hle]; [done|].
  rewrite (addOutputs_throws outputs tx remaining k Hk) in Hok by lia. discriminate.
Qed.

Lemma forallb_affordable (fee : Z) (outputs : list Reserve.Withdrawal) :
  forallb (fun o => 0 <? Reserve.value o - fee) (map toTxOutput outputs) = true
  <-> Forall (fun o => fee < Reserve.out_amount o) outputs.
Proof.
  induction outputs as [|o l IH]; simpl.
  - split; [constructor|done].
  - rewrite andb_true_iff, IH, Forall_cons, Z.ltb_lt. intuition lia.
Qed.

Section BuilderShape.
Context `{Reserve.BitcoinJs}.

(** A disbursal that builds has the inputs in their order, the user outputs
    in their order with their scripts, each lowered by the same fee share and
    still positive, and last the change output with the inputs' total minus
    the amounts withdrawn, untouched by the fee; the running remainder was
    positive after every user output. *)
Theorem buildOutgoingTx_shape (signingTx : Reserve.SigningTx)
    (validators : Reserve.ValidatorMap) (signatoryKeys : gmap string Buffer)
    (network : Reserve.BitcoinNetwork) (tx : Reserve.Transaction) :
  Reserve.buildOutgoingTx signingTx validators signatoryKeys network = Ok tx ->
  exists p2ss,
    Reserve.createOutput validators signatoryKeys network = Ok p2ss
    /\ tx = Reserve.mkTransaction
              (map toTxInput (Reserve.inputs signingTx))
              (map (chargeFee (feeShare signingTx p2ss))
                   (map toTxOutput (Reserve.outputs signingTx))
               ++ [Reserve.mkTxOutput p2ss
                     (Reserve.totalIn (Reserve.inputs signingTx)
                        - Reserve.totalWithdrawn (Reserve.outputs signingTx))])
    /\ Forall (fun o => feeShare signingTx p2ss < Reserve.out_amount o)
         (Reserve.outputs signingTx)
    /\ forall k, (1 <= k <= length (Reserve.outputs signingTx))%nat ->
         0 < Reserve.totalIn (Reserve.inputs signingTx)
             - Reserve.totalWithdrawn (take k (Reserve.outputs signingTx)).
Proof.
  unfold Reserve.buildOutgoingTx. rewrite addInputs_spec. simpl.
  rewrite Z.add_0_l.
  destruct (Reserve.addOutputs _ _ _) as [[tx1 remaining]|] eqn:Hadd; simpl; [|discriminate].
  pose proof (addOutputs_ok_affordable _ _ _ _ _ Hadd) as Hpos.
  apply addOutputs_ok in Hadd as [-> ->]. simpl.
  destruct (Reserve.createOutput _ _ _) as [p2ss|]; simpl; [|discriminate].
  unfold Reserve.addOutput. simpl.
  pose proof (payFee_closed (feeShare signingTx p2ss) []
                (map toTxOutput (Reserve.outputs signingTx))
                [Reserve.mkTxOutput p2ss
                   (Reserve.totalIn (Reserve.inputs signingTx)
                      - Reserve.totalWithdrawn (Reserve.outputs signingTx))]) as Hpay.
  rewrite length_map in Hpay. simpl in Hpay.
  unfold feeShare at 1, measuredTx in Hpay. rewrite Hpay. clear Hpay.
  destruct (forallb _ _) eqn:Hall; simpl; [|discriminate].
  intros [= <-]. exists p2ss. split; [done|]. split; [done|]. split.
  - by apply forallb_affordable.
  - intros k Hk. specialize (Hpos k Hk). lia.
Qed.


End BuilderShape.

Lemma buildOutgoingTx_shape_witness :
  let signingTx :=
    Reserve.mkSigningTx [Reserve.mkUtxo Fixture.txidA 0 100000]
      [Reserve.mkWithdrawal [Byte.x51] 30000; Reserve.mkWithdrawal [Byte.x52] 20000] in
  exists p2ss,
    Reserve.createOutput (H := Fixture.bitcoinjs) [(Fixture.validatorB, 10)]
      (<[Fixture.validatorB := Fixture.key33]> ∅) Reserve.regtest = Ok p2ss
    /\ Forall (fun o => feeShare (H := Fixture.bitcoinjs) signingTx p2ss
                        < Reserve.out_amount o)
         (Reserve.outputs signingTx).
Proof.
  intros signingTx.
  edestruct (buildOutgoingTx_shape (H := Fixture.bitcoinjs) signingTx
               [(Fixture.validatorB, 10)] (<[Fixture.validatorB := Fixture.key33]> ∅)
               Reserve.regtest) as (p2ss & Hp2ss & _ & Hall & _).
  - vm_compute. reflexivity.
  - exists p2ss. split; [exact Hp2ss|exact Hall].
Defined.


(** ** The key registry: [signatoryKeyTx] *)

Section Registry.
Context `{Peg.PegLibs}.

(** A key commitment is admitted exactly when the key has 33 bytes, the
    signature 64, the index names a selected validator, and the signature
    verifies under that validator's key; the state it leaves is the given
    one with the key stored under the validator's consensus key. *)
Theorem signatoryKeyTx_accepted (state state' : Peg.State) (context : Peg.Context)
    (signatoryIndex : Z) (signatoryKey signature : Buffer) :
  Peg.signatoryKeyTx signatoryIndex signatoryKey signature context state = (state', Ok tt)
  <-> length signatoryKey = 33%nat
      /\ length signature = 64%nat
      /\ exists entry,
           Peg.array_get (Reserve.getSignatorySet (Peg.validators context)) signatoryIndex
             = Some entry
           /\ Peg.ed25519_verify signature signatoryKey
                (Peg.fromBase64 (Reserve.validatorKey entry)) = true
           /\ state' = commitKey state (Reserve.validatorKey entry) signatoryKey.
Proof.
  run_handler. unfold Peg.SIGNATORY_KEY_LENGTH, Peg.SIGNATURE_LENGTH.
  destruct (decide (length signatoryKey = 33%nat)) as [Hk|Hk].
  2:{ rewrite bool_decide_eq_true_2 by done. split; [discriminate|tauto]. }
  rewrite bool_decide_eq_false_2 by (by intros ?).
  destruct (decide (length signature = 64%nat)) as [Hs|Hs].
  2:{ rewrite bool_decide_eq_true_2 by done. split; [discriminate|tauto]. }
  rewrite bool_decide_eq_false_2 by (by intros ?).
  destruct (Peg.array_get _ signatoryIndex) as [entry|].
  2:{ split; [discriminate|]. by intros (_ & _ & entry & [=] & _). }
  destruct (Peg.ed25519_verify _ _ _) eqn:Hv; simpl.
  - split.
    + intros [= <-]. repeat split; try done. by exists entry.
    + intros (_ & _ & entry' & [= <-] & _ & ->). done.
  - split; [discriminate|]. intros (_ & _ & entry' & [= <-] & Hv' & _). congruence.
Qed.

(** A rejected key commitment leaves the state exactly as it was. *)
Theorem signatoryKeyTx_rejected_unchanged (state state' : Peg.State)
    (context : Peg.Context) (signatoryIndex : Z) (signatoryKey signature : Buffer)
    (e : error) :
  Peg.signatoryKeyTx signatoryIndex signatoryKey signature context state
    = (state', Throw e) ->
  state' = state.
Proof.
  run_handler.
  destruct (bool_decide _); [by intros [= <- _]|].
  destruct (bool_decide _); [by intros [= <- _]|].
  destruct (Peg.array_get _ _); [|by intros [= <- _]].
  destruct (Peg.ed25519_verify _ _ _); simpl; [discriminate|by intros [= <- _]].
Qed.

(** An index below zero or past the selection (so any index from 76 on)
    is answered with the TypeError of reading a property of [undefined], not
    with 'Invalid signatory index', and the state is untouched. *)
Theorem signatoryKeyTx_index_out_of_range (state : Peg.State) (context : Peg.Context)
    (signatoryIndex : Z) (signatoryKey signature : Buffer) :
  length signatoryKey = 33%nat ->
  length signature = 64%nat ->
  signatoryIndex < 0
    \/ Z.of_nat (Nat.min Reserve.MAX_SIGNATORIES (length (Peg.validators context)))
       <= signatoryIndex ->
  Peg.signatoryKeyTx signatoryIndex signatoryKey signature context state
  = (state, Throw TypeError).
Proof.
  intros Hk Hs Hrange. run_handler. unfold Peg.SIGNATORY_KEY_LENGTH, Peg.SIGNATURE_LENGTH.
  rewrite Hk, Hs. simpl.
  assert (Hnone : Peg.array_get (Reserve.getSignatorySet (Peg.validators context))
                    signatoryIndex = None).
  { unfold Peg.array_get. destruct (Z.ltb_spec signatoryIndex 0); [done|].
    apply lookup_ge_None_2.
    rewrite (proj1 (getSignatorySet_size (Peg.validators context))). lia. }
  by rewrite Hnone.
Qed.

(** A validator may commit again: the later key replaces the earlier one,
    and the state is the one the later commitment alone would have left. *)
Theorem signatoryKeyTx_recommit (state state1 state2 : Peg.State) (context : Peg.Context)
    (signatoryIndex : Z) (key1 signature1 key2 signature2 : Buffer) :
  Peg.signatoryKeyTx signatoryIndex key1 signature1 context state = (state1, Ok tt) ->
  Peg.signatoryKeyTx signatoryIndex key2 signature2 context state1 = (state2, Ok tt) ->
  Peg.signatoryKeyTx signatoryIndex key2 signature2 context state = (state2, Ok tt)
  /\ exists entry,
       Peg.array_get (Reserve.getSignatorySet (Peg.validators context)) signatoryIndex
         = Some entry
       /\ Peg.signatoryKeys state2 !! Reserve.validatorKey entry = Some key2.
Proof.
  intros H1 H2.
  apply signatoryKeyTx_accepted in H1 as (_ & _ & entry & Hentry & _ & ->).
  apply signatoryKeyTx_accepted in H2 as (Hk & Hs & entry' & Hentry' & Hv & ->).
  rewrite Hentry in Hentry'. injection Hentry' as <-. split.
  - apply signatoryKeyTx_accepted. repeat split; try done. exists entry.
    repeat split; try done. unfold commitKey. simpl. by rewrite insert_insert_eq.
  - exists entry. split; [done|]. simpl. apply lookup_insert_eq.
Qed.

End Registry.

Lemma signatoryKeyTx_rejected_unchanged_witness :
  let state := Peg.initializer Fixture.genesis in
  exists state' e,
    Peg.signatoryKeyTx (H := Fixture.peglibs) 0 Fixture.key33 (repeat Byte.x00 64)
      (Peg.mkContext [(Fixture.validatorB, 10)]) state = (state', Throw e)
    /\ state' = state.
Proof.
  intros state. eexists. eexists. split; [vm_compute; reflexivity|].
  eapply (signatoryKeyTx_rejected_unchanged (H := Fixture.peglibs) state _
            (Peg.mkContext [(Fixture.validatorB, 10)]) 0 Fixture.key33 (repeat Byte.x00 64)).
  vm_compute. reflexivity.
Defined.

Lemma signatoryKeyTx_index_out_of_range_witness :
  let state := Peg.initializer Fixture.genesis in
  Peg.signatoryKeyTx (H := Fixture.peglibs) 1 Fixture.key33 (repeat Byte.x00 64)
    (Peg.mkContext [(Fixture.validatorB, 10)]) state
  = (state, Throw TypeError).
Proof.
  intros state. apply signatoryKeyTx_index_out_of_range.
  - reflexivity.
  - reflexivity.
  - right. vm_compute. discriminate.
Defined.

Lemma signatoryKeyTx_recommit_witness :
  let state := Peg.initializer Fixture.genesis in
  let context := Peg.mkContext [(Fixture.validatorB, 10)] in
  let key2 := Byte.x03 :: repeat Byte.x22 32 in
  let signature2 := repeat Byte.x0b 32 ++ Byte.x03 :: repeat Byte.x22 31 in
  Peg.signatoryKeyTx (H := Fixture.peglibs) 0 key2 signature2 context state
  = (commitKey state Fixture.validatorB key2, Ok tt).
Proof.
  intros state context key2 signature2.
  refine (proj1 (signatoryKeyTx_recommit (H := Fixture.peglibs) state
                   (commitKey state Fixture.validatorB Fixture.key33)
                   (commitKey state Fixture.validatorB key2) context 0
                   Fixture.key33 (repeat Byte.x0b 32 ++ Byte.x02 :: repeat Byte.x11 31)
                   key2 signature2 _ _)).
  - vm_compute. reflexivity.
  - vm_compute. reflexivity.
Defined.

(** ** Deposits and the dispatcher *)

Section Frames.
Context `{Peg.PegLibs}.

(** Whatever its outcome, [depositTx] leaves the header chain, the UTXO
    list and the key registry as they were and never removes a mark from
    [processedTxs]; a transaction that does not decode changes nothing. *)
Theorem depositTx_frame (state state' : Peg.State) (r : result unit)
    (transaction : Buffer) (proof : Peg.MerkleProof) (context : Peg.Context) :
  Peg.depositTx transaction proof context state = (state', r) ->
  Peg.chain state' = Peg.chain state
  /\ Peg.utxos state' = Peg.utxos state
  /\ Peg.signatoryKeys state' = Peg.signatoryKeys state
  /\ (forall txidBase64, Peg.processedTxs state !! txidBase64 = Some true ->
                         Peg.processedTxs state' !! txidBase64 = Some true)
  /\ (forall e, Peg.transaction_decode transaction = Throw e -> state' = state).
Proof.
  destruct (Peg.transaction_decode transaction) as [bitcoinTx|e] eqn:Hdecode.
  - destruct (decide (Peg.processedTxs state !! Peg.toBase64 (Peg.getTxHash bitcoinTx)
                      = Some true)) as [Hseen|Hnew].
    + rewrite (depositTx_already_processed _ _ _ _ _ Hdecode Hseen).
      intros [= <- _]. repeat split; done.
    + rewrite (depositTx_fresh _ _ _ _ _ Hdecode Hnew).
      intros [= <- _]. repeat split; try done.
      intros txidBase64 Hmarked. simpl.
      destruct (decide (Peg.toBase64 (Peg.getTxHash bitcoinTx) = txidBase64)) as [->|Hne].
      * apply lookup_insert_eq.
      * by rewrite lookup_insert_ne.
  - run_handler. rewrite Hdecode. intros [= <- _]. repeat split; done.
Qed.

(** No transaction changes the UTXO list; the header chain changes only
    under a headers transaction, the key registry only under a key
    commitment, the processed-tx table only under a deposit. *)
Theorem txHandler_frame (tx : Peg.Tx) (context : Peg.Context)
    (state state' : Peg.State) (r : result unit) :
  Peg.txHandler tx context state = (state', r) ->
  Peg.utxos state' = Peg.utxos state
  /\ ((forall headers, tx <> Peg.HeadersTx headers) -> Peg.chain state' = Peg.chain state)
  /\ ((forall i key sig, tx <> Peg.SignatoryKeyTx i key sig) ->
      Peg.signatoryKeys state' = Peg.signatoryKeys state)
  /\ ((forall transaction proof, tx <> Peg.DepositTx transaction proof) ->
      Peg.processedTxs state' = Peg.processedTxs state).
Proof.
  destruct tx as [headers|transaction proof|i key sig|]; simpl; intros Hrun.
  - unfold Peg.headersTx in Hrun.
    destruct (Peg.Blockchain_add _ _) as [store r0]. injection Hrun as <- _.
    repeat split; try done. intros Hne. by destruct (Hne headers).
  - apply depositTx_frame in Hrun as (Hc & Hu & Hk & _ & _).
    repeat split; try done. intros Hne. by destruct (Hne transaction proof).
  - destruct r as [[]|e].
    + apply signatoryKeyTx_accepted in Hrun as (_ & _ & entry & _ & _ & ->).
      repeat split; try done. intros Hne. by destruct (Hne i key sig).
    + apply signatoryKeyTx_rejected_unchanged in Hrun as ->. repeat split; done.
  - unfold Peg.throw in Hrun. injection Hrun as <- _. repeat split; done.
Qed.

End Frames.

Lemma depositTx_frame_witness :
  let state := markProcessed (Peg.initializer Fixture.badBlock) "00" in
  exists state' r,
    Peg.depositTx (H := Fixture.peglibs) Fixture.txidA Fixture.proofA (Peg.mkContext [])
      state = (state', r)
    /\ Peg.processedTxs state' !! "00"%string = Some true
    /\ Peg.utxos state' = [].
Proof.
  intros state.
  assert (Hrun : exists state' r,
            Peg.depositTx (H := Fixture.peglibs) Fixture.txidA Fixture.proofA
              (Peg.mkContext []) state = (state', r)).
  { eexists. eexists. vm_compute. reflexivity. }
  destruct Hrun as (state' & r & Hrun). exists state', r. split; [exact Hrun|].
  destruct (depositTx_frame (H := Fixture.peglibs) _ _ _ _ _ _ Hrun)
    as (_ & Hutxos & _ & Hmarks & _).
  split; [apply Hmarks; reflexivity|exact Hutxos].
Defined.

Lemma txHandler_frame_witness :
  let state := Peg.initializer Fixture.genesis in
  exists state' r,
    Peg.txHandler (H := Fixture.peglibs)
      (Peg.DepositTx Fixture.txidA Fixture.proofA) (Peg.mkContext []) state = (state', r)
    /\ Peg.utxos state' = Peg.utxos state
    /\ Peg.signatoryKeys state' = Peg.signatoryKeys state.
Proof.
  intros state.
  assert (Hrun : exists state' r,
            Peg.txHandler (H := Fixture.peglibs)
              (Peg.DepositTx Fixture.txidA Fixture.proofA) (Peg.mkContext []) state
            = (state', r)).
  { eexists. eexists. vm_compute. reflexivity. }
  destruct Hrun as (state' & r & Hrun). exists state', r. split; [exact Hrun|].
  destruct (txHandler_frame (H := Fixture.peglibs) _ _ _ _ _ Hrun)
    as (Hutxos & _ & Hkeys & _).
  split; [exact Hutxos|]. apply Hkeys. discriminate.
Defined.

(** ** From a commitment to the script *)

Lemma witnessScriptAsm_carries_key (validators : Reserve.ValidatorMap)
    (signatoryKeys : gmap string Buffer) (asm : list string)
    (v : Reserve.Validator) (key : Buffer) :
  Reserve.witnessScriptAsm validators signatoryKeys = Ok asm ->
  v ∈ committed signatoryKeys (Reserve.getSignatorySet validators) ->
  signatoryKeys !! Reserve.validatorKey v = Some key ->
  key <> [] ->
  Buffer_toHex key ∈ asm.
Proof.
  unfold Reserve.witnessScriptAsm. rewrite signatoriesOf_committed.
  set (thrv := Reserve.getVotingPowerThreshold _). clearbody thrv.
  intros Hasm Hv Hk Hne.
  assert (Hhex : Buffer_toHex key = Reserve.pubkey (signatoryInfoOf signatoryKeys v)).
  { simpl. unfold Buffer in *. by rewrite Hk. }
  destruct (committed signatoryKeys (Reserve.getSignatorySet validators)) as [|v0 rest];
    [by apply not_elem_of_nil in Hv|].
  change ((map (signatoryInfoOf signatoryKeys) (v0 :: rest)) !! 0%nat)
    with (Some (signatoryInfoOf signatoryKeys v0)) in Hasm.
  change (drop 1 (map (signatoryInfoOf signatoryKeys) (v0 :: rest)))
    with (map (signatoryInfoOf signatoryKeys) rest) in Hasm.
  unfold Reserve.firstSignatory in Hasm.
  destruct (Reserve.uint (Reserve.sigVotingPower (signatoryInfoOf signatoryKeys v0)))
    as [t0|]; cbn [rbind] in Hasm; [|discriminate].
  destruct (mapR _ _) as [r|] eqn:Hrest; cbn [rbind] in Hasm; [|discriminate].
  destruct (Reserve.compare thrv) as [last|]; cbn [rbind] in Hasm; [|discriminate].
  injection Hasm as <-.
  apply mapR_ok_inv, nthSignatory_tokens in Hrest as (_ & _ & Hin).
  unfold Reserve.trim. apply list_elem_of_filter.
  split; [by apply Buffer_toHex_nonempty|].
  rewrite Hhex. apply elem_of_cons in Hv as [->|Hv].
  - apply list_elem_of_here.
  - do 7 apply list_elem_of_further. apply elem_of_app. left. apply Hin.
    by apply list_elem_of_fmap_2.
Qed.

Section CommitToScript.
Context `{Peg.PegLibs}.

(** Once a key commitment is admitted, script assembly for the same
    validators no longer fails for want of a signatory, and every script it
    emits carries the committed key in hexadecimal. *)
Theorem committed_key_enters_script (state state' : Peg.State) (context : Peg.Context)
    (signatoryIndex : Z) (signatoryKey signature : Buffer) :
  Peg.signatoryKeyTx signatoryIndex signatoryKey signature context state = (state', Ok tt) ->
  Reserve.witnessScriptAsm (Peg.validators context) (Peg.signatoryKeys state')
    <> Throw TypeError
  /\ forall asm,
       Reserve.witnessScriptAsm (Peg.validators context) (Peg.signatoryKeys state') = Ok asm ->
       Buffer_toHex signatoryKey ∈ asm.
Proof.
  intros Hok. apply signatoryKeyTx_accepted in Hok as (Hk & _ & entry & Hentry & _ & ->).
  simpl.
  assert (Hsel : entry ∈ Reserve.getSignatorySet (Peg.validators context)).
  { unfold Peg.array_get in Hentry. destruct (signatoryIndex <? 0); [discriminate|].
    by eapply list_elem_of_lookup_2. }
  assert (Hkey : <[Reserve.validatorKey entry := signatoryKey]> (Peg.signatoryKeys state)
                   !! Reserve.validatorKey entry = Some signatoryKey)
    by apply lookup_insert_eq.
  assert (Hin : entry ∈ committed
                  (<[Reserve.validatorKey entry := signatoryKey]> (Peg.signatoryKeys state))
                  (Reserve.getSignatorySet (Peg.validators context))).
  { apply list_elem_of_filter. split; [by eexists|done]. }
  split.
  - rewrite witnessScriptAsm_empty_set. intros Hnil. rewrite Hnil in Hin.
    by apply not_elem_of_nil in Hin.
  - intros asm Hasm. eapply witnessScriptAsm_carries_key; [exact Hasm|exact Hin|exact Hkey|].
    intros ->. discriminate Hk.
Qed.

End CommitToScript.

Lemma committed_key_enters_script_witness :
  let state := Peg.initializer Fixture.genesis in
  let context := Peg.mkContext [(Fixture.validatorB, 10)] in
  exists asm,
    Reserve.witnessScriptAsm (Peg.validators context)
      (Peg.signatoryKeys (commitKey state Fixture.validatorB Fixture.key33)) = Ok asm
    /\ Buffer_toHex Fixture.key33 ∈ asm.
Proof.
  intros state context. eexists. split; [vm_compute; reflexivity|].
  refine (proj2 (committed_key_enters_script (H := Fixture.peglibs) state
                   (commitKey state Fixture.validatorB Fixture.key33) context 0
                   Fixture.key33 (repeat Byte.x0b 32 ++ Byte.x02 :: repeat Byte.x11 31) _)
                _ _).
  - vm_compute. reflexivity.
  - vm_compute. reflexivity.
Defined.

(** ** [commitPubkey] *)

Lemma findSignatoryIndex_found (signatorySet : list Reserve.Validator) (key : string)
    (i j : Z) :
  Signatory.findSignatoryIndex signatorySet key i = Some j ->
  i <= j
  /\ exists entry, signatorySet !! Z.to_nat (j - i) = Some entry
                   /\ Reserve.validatorKey entry = key.
Proof.
  revert i. induction signatorySet as [|v l IH]; intros i; simpl; [discriminate|].
  destruct (String.eqb_spec (Reserve.validatorKey v) key) as [Heq|Hne].
  - intros [= <-]. split; [lia|]. exists v. by rewrite Z.sub_diag.
  - intros Hfind. apply IH in Hfind as (Hle & entry & Hlook & Hkey).
    split; [lia|]. exists entry. split; [|done].
    replace (Z.to_nat (j - i)) with (S (Z.to_nat (j - (i + 1)))) by lia. done.
Qed.

Lemma findSignatoryIndex_absent (signatorySet : list Reserve.Validator) (key : string)
    (i : Z) :
  (forall v, v ∈ signatorySet -> Reserve.validatorKey v <> key) ->
  Signatory.findSignatoryIndex signatorySet key i = None.
Proof.
  revert i. induction signatorySet as [|v l IH]; intros i Hnone; simpl; [done|].
  destruct (String.eqb_spec (Reserve.validatorKey v) key) as [Heq|Hne].
  - destruct (Hnone v); [apply list_elem_of_here|done].
  - apply IH. intros u Hu. apply Hnone. by apply list_elem_of_further.
Qed.

Section CommitPubkey.
Context `{Signatory.SignatoryLibs}.

(** The message [commitPubkey] sends carries a key that passed the
    secp256k1 check and an index that, in the selection made from the same
    validators, names the committing validator's own consensus key. *)
Theorem commitPubkey_message (validators : Reserve.ValidatorMap)
    (privValidator : Signatory.ValidatorKey) (signatoryPub : Buffer) (message : Peg.Tx) :
  Signatory.commitPubkey validators privValidator signatoryPub = Ok message ->
  exists signatoryIndex signature entry,
    message = Peg.SignatoryKeyTx signatoryIndex signatoryPub signature
    /\ Signatory.publicKeyVerify signatoryPub = true
    /\ Signatory.ed25519Sign privValidator signatoryPub = Ok signature
    /\ Peg.array_get (Reserve.getSignatorySet validators) signatoryIndex = Some entry
    /\ Reserve.validatorKey entry = Signatory.pub_key_value privValidator.
Proof.
  unfold Signatory.commitPubkey.
  destruct (Signatory.publicKeyVerify signatoryPub); simpl; [|discriminate].
  destruct (Signatory.findSignatoryIndex _ _ 0) as [j|] eqn:Hfind; [|discriminate].
  destruct (Signatory.ed25519Sign _ _) as [sig|]; simpl; [|discriminate].
  intros [= <-]. apply findSignatoryIndex_found in Hfind as (Hle & entry & Hlook & Hkey).
  exists j, sig, entry. repeat split; try done.
  unfold Peg.array_get. rewrite (proj2 (Z.ltb_ge j 0)) by lia.
  by rewrite Z.sub_0_r in Hlook.
Qed.

(** A validator that is not among the selected ones (it is not in the map,
    or more than 76 validators rank before it) cannot commit a key: the
    client throws 'Given validator key not found in validator set'. *)
Theorem commitPubkey_not_selected (validators : Reserve.ValidatorMap)
    (privValidator : Signatory.ValidatorKey) (signatoryPub : Buffer) :
  Signatory.publicKeyVerify signatoryPub = true ->
  (forall v, v ∈ Reserve.getSignatorySet validators ->
             Reserve.validatorKey v <> Signatory.pub_key_value privValidator) ->
  Signatory.commitPubkey validators privValidator signatoryPub
  = Throw ValidatorKeyNotFound.
Proof.
  intros Hvalid Habsent. unfold Signatory.commitPubkey. rewrite Hvalid. simpl.
  by rewrite findSignatoryIndex_absent.
Qed.

Context `{Peg.PegLibs}.

(** What the client sends, the peg zone admits: if the key has 33 bytes and
    the signature the client made has 64 and verifies under the validator's
    consensus key, [signatoryKeyTx] stores the key under that consensus
    key. *)
Theorem commitPubkey_admitted (validators : Reserve.ValidatorMap)
    (privValidator : Signatory.ValidatorKey) (signatoryPub : Buffer)
    (signatoryIndex : Z) (signatoryKey signature : Buffer) (state : Peg.State) :
  Signatory.commitPubkey validators privValidator signatoryPub
    = Ok (Peg.SignatoryKeyTx signatoryIndex signatoryKey signature) ->
  length signatoryPub = 33%nat ->
  length signature = 64%nat ->
  Peg.ed25519_verify signature signatoryPub
    (Peg.fromBase64 (Signatory.pub_key_value privValidator)) = true ->
  Peg.signatoryKeyTx signatoryIndex signatoryKey signature (Peg.mkContext validators) state
  = (commitKey state (Signatory.pub_key_value privValidator) signatoryPub, Ok tt).
Proof.
  intros Hmsg Hk Hs Hv.
  apply commitPubkey_message in Hmsg
    as (i & sig & entry & [= -> -> ->] & _ & _ & Hentry & Hkey).
  apply signatoryKeyTx_accepted. repeat split; try done.
  exists entry. simpl. rewrite Hkey. done.
Qed.

End CommitPubkey.

Lemma commitPubkey_message_witness :
  exists signatoryIndex signature entry,
    Peg.SignatoryKeyTx 0 Fixture.key33
      (repeat Byte.x0b 32 ++ Byte.x02 :: repeat Byte.x11 31)
    = Peg.SignatoryKeyTx signatoryIndex Fixture.key33 signature
    /\ Peg.array_get (Reserve.getSignatorySet [(Fixture.validatorB, 10)]) signatoryIndex
       = Some entry
    /\ Reserve.validatorKey entry = Fixture.validatorB.
Proof.
  destruct (commitPubkey_message (H := Fixture.signatorylibs) [(Fixture.validatorB, 10)]
              (Signatory.mkValidatorKey Fixture.validatorB EmptyString) Fixture.key33
              (Peg.SignatoryKeyTx 0 Fixture.key33
                 (repeat Byte.x0b 32 ++ Byte.x02 :: repeat Byte.x11 31)))
    as (i & sig & entry & Hmsg & _ & _ & Hentry & Hkey).
  - vm_compute. reflexivity.
  - exists i, sig, entry. split; [exact Hmsg|]. split; [exact Hentry|exact Hkey].
Defined.

Lemma commitPubkey_not_selected_witness :
  Signatory.commitPubkey (H := Fixture.signatorylibs) [(Fixture.validatorB, 10)]
    (Signatory.mkValidatorKey "00" EmptyString) Fixture.key33
  = Throw ValidatorKeyNotFound.
Proof.
  apply commitPubkey_not_selected.
  - reflexivity.
  - intros v Hv. apply list_elem_of_In in Hv. vm_compute in Hv.
    destruct Hv as [<-|[]]. vm_compute. discriminate.
Defined.

Lemma commitPubkey_admitted_witness :
  let state := Peg.initializer Fixture.genesis in
  Peg.signatoryKeyTx (H := Fixture.peglibs) 0 Fixture.key33
    (repeat Byte.x0b 32 ++ Byte.x02 :: repeat Byte.x11 31)
    (Peg.mkContext [(Fixture.validatorB, 10)]) state
  = (commitKey state Fixture.validatorB Fixture.key33, Ok tt).
Proof.
  intros state.
  apply (commitPubkey_admitted (H := Fixture.signatorylibs) (H0 := Fixture.peglibs)
           [(Fixture.validatorB, 10)]
           (Signatory.mkValidatorKey Fixture.validatorB EmptyString) Fixture.key33).
  - vm_compute. reflexivity.
  - reflexivity.
  - reflexivity.
  - vm_compute. reflexivity.
Defined.

(** ** The signer's side *)

Lemma byte_clamp_low (h : Byte.byte) :
  Byte.to_N (Client.byte_land h 248) = (8 * (Byte.to_N h / 8))%N.
Proof. destruct h; reflexivity. Qed.

Lemma byte_clamp_high (h : Byte.byte) :
  Byte.to_N (Client.byte_lor (Client.byte_land h 63) 64) = (64 + Byte.to_N h mod 64)%N.
Proof. destruct h; reflexivity. Qed.

Section Signer.
Context `{Client.SignerLibs}.

(** [convertEd25519] keeps the length of the hash of the first 32 bytes
    and changes two of its bytes: byte 0 loses its three low bits, byte 31
    gets bit 7 cleared and bit 6 set; every other byte is the hash's. *)
Theorem convertEd25519_clamp (ref10Priv : Buffer) :
  let digest := Client.sha512 (take 32 ref10Priv) in
  length (Client.convertEd25519 ref10Priv) = length digest
  /\ forall i h, digest !! i = Some h ->
       exists b, Client.convertEd25519 ref10Priv !! i = Some b
                 /\ Byte.to_N b
                    = (if decide (i = 0%nat) then 8 * (Byte.to_N h / 8)
                       else if decide (i = 31%nat) then 64 + Byte.to_N h mod 64
                       else Byte.to_N h)%N.
Proof.
  intros digest. unfold Client.convertEd25519. cbv zeta. fold digest.
  unfold Buffer in *. split.
  - by rewrite !length_alter.
  - intros i h Hi.
    destruct (decide (i = 0%nat)) as [->|H0].
    + rewrite list_lookup_alter_ne, list_lookup_alter_ne by done.
      rewrite list_lookup_alter_eq, Hi. simpl. eexists. split; [done|].
      apply byte_clamp_low.
    + destruct (decide (i = 31%nat)) as [->|H31].
      * rewrite list_lookup_alter_eq, list_lookup_alter_eq.
        rewrite list_lookup_alter_ne, Hi by done. simpl. eexists. split; [done|].
        apply byte_clamp_high.
      * rewrite !list_lookup_alter_ne by done. by exists h.
Qed.

End Signer.


Lemma findSignatoryByKey_missing (before after : list Reserve.Validator)
    (v : Reserve.Validator) (signatoryKeys : gmap string Buffer)
    (signatoryPub : Buffer) (i : Z) :
  Forall (fun u => exists key, signatoryKeys !! Reserve.validatorKey u = Some key
                               /\ key <> signatoryPub) before ->
  signatoryKeys !! Reserve.validatorKey v = None ->
  Client.findSignatoryByKey (before ++ v :: after) signatoryKeys signatoryPub i
  = Throw TypeError.
Proof.
  intros Hbefore Hv. revert i.
  induction Hbefore as [|u l (key & Hk & Hne) _ IH]; intros i; simpl.
  - by rewrite Hv.
  - rewrite Hk, bool_decide_eq_false_2 by done. apply IH.
Qed.

Section Disbursal.
Context `{Client.SignerLibs} `{Reserve.BitcoinJs}.


(** The signer's search reads the committed key of every selected
    validator ranked before it: if one of them has not committed, signing
    fails with a TypeError, whatever the signing transaction. *)
Theorem signDisbursal_uncommitted_validator (signatorySet : Reserve.SignatorySet)
    (signingTx : option Reserve.SigningTx) (signatoryPriv : Buffer)
    (network : Reserve.BitcoinNetwork)
    (before after : list Reserve.Validator) (v : Reserve.Validator) :
  Reserve.getSignatorySet (Reserve.validators signatorySet) = before ++ v :: after ->
  Forall (fun u => exists key,
            Reserve.signatoryKeys signatorySet !! Reserve.validatorKey u = Some key
            /\ key <> Client.publicKeyCreate signatoryPriv) before ->
  Reserve.signatoryKeys signatorySet !! Reserve.validatorKey v = None ->
  Client.signDisbursal signatorySet signingTx signatoryPriv network
  = inl (Client.Raised TypeError).
Proof.
  intros Hsel Hbefore Hv. unfold Client.signDisbursal.
  by rewrite Hsel, (findSignatoryByKey_missing _ _ _ _ _ _ Hbefore Hv).
Qed.

End Disbursal.


Lemma signDisbursal_uncommitted_validator_witness :
  Client.signDisbursal (H := ClientFixture.signerlibs) (H0 := Fixture.bitcoinjs)
    (Reserve.mkSignatorySet [("A", 20); (Fixture.validatorB, 10)]%string
       (<[Fixture.validatorB := Fixture.key33]> ∅))
    None ClientFixture.privB Reserve.regtest
  = inl (Client.Raised TypeError).
Proof.
  apply (signDisbursal_uncommitted_validator (H := ClientFixture.signerlibs)
           (H0 := Fixture.bitcoinjs) _ _ _ _ []
           [Reserve.mkValidator Fixture.validatorB 10] (Reserve.mkValidator "A" 20)).
  - vm_compute. reflexivity.
  - constructor.
  - vm_compute. reflexivity.
Defined.

(** ** The client's validator map and address *)

Lemma object_set_spec (obj : Reserve.ValidatorMap) (key : string) (v : Z) :
  NoDup (obj.*1) ->
  NoDup ((Client.object_set obj key v).*1)
  /\ (forall k p, (k, p) ∈ Client.object_set obj key v
                  <-> (k = key /\ p = v) \/ (k <> key /\ (k, p) ∈ obj))
  /\ (key ∉ obj.*1 -> Client.object_set obj key v = obj ++ [(key, v)]).
Proof.
  induction obj as [|[k0 w] rest IH]; simpl; intros Hnd.
  - split; [apply NoDup_singleton|]. split; [|done].
    intros k p. rewrite list_elem_of_singleton. split.
    + intros [= -> ->]. by left.
    + intros [[-> ->]|[_ Hin]]; [done|by apply not_elem_of_nil in Hin].
  - apply NoDup_cons in Hnd as [Hk0 Hnd]. destruct (IH Hnd) as (IHnd & IHin & IHfresh).
    destruct (String.eqb_spec k0 key) as [->|Hne].
    + split; [simpl; by apply NoDup_cons|]. split.
      * intros k p. rewrite !elem_of_cons. split.
        -- intros [[= -> ->]|Hin]; [by left|]. right. split; [|by right].
           intros ->. apply Hk0. apply list_elem_of_fmap. by exists (key, p).
        -- intros [[-> ->]|[Hk [[= -> ->]|Hin]]]; [by left|done|by right].
      * intros Hfresh. destruct Hfresh. simpl. apply list_elem_of_here.
    + split; [|split].
      * simpl. apply NoDup_cons. split; [|done].
        intros Hin. apply list_elem_of_fmap in Hin as ([k p] & Heq & Hin).
        simpl in Heq. subst k. apply IHin in Hin as [[-> _]|[_ Hin]]; [done|].
        apply Hk0. apply list_elem_of_fmap. by exists (k0, p).
      * intros k p. rewrite !elem_of_cons, IHin. split.
        -- intros [[= -> ->]|[[-> ->]|[Hk Hin]]]; [right; split; [done|by left]|by left|].
           right. split; [done|by right].
        -- intros [[-> ->]|[Hk [[= -> ->]|Hin]]]; [right; by left|by left|].
           right. right. done.
      * intros Hfresh. simpl. rewrite IHfresh; [done|].
        intros Hin. apply Hfresh. simpl. by apply list_elem_of_further.
Qed.

Lemma lotionValidatorsOf_snoc (validators : list Client.LightClientValidator)
    (v : Client.LightClientValidator) :
  Client.lotionValidatorsOf (validators ++ [v])
  = Client.object_set (Client.lotionValidatorsOf validators)
      (Client.lc_pub_key_value v) (Client.lc_voting_power v).
Proof. unfold Client.lotionValidatorsOf. by rewrite fold_left_app. Qed.

(** The validator map the client builds has each key once, and for a key
    listed several times it holds the voting power of the last listing. *)
Theorem lotionValidatorsOf_last_wins (validators : list Client.LightClientValidator) :
  NoDup ((Client.lotionValidatorsOf validators).*1)
  /\ forall key power,
       (key, power) ∈ Client.lotionValidatorsOf validators
       <-> exists earlier later,
             validators
             = earlier ++ Client.mkLightClientValidator key power :: later
             /\ Forall (fun u => Client.lc_pub_key_value u <> key) later.
Proof.
  induction validators as [|v l [IHnd IHin]] using rev_ind.
  - split; [apply NoDup_nil_2|]. intros key power. split.
    + intros Hin. by apply not_elem_of_nil in Hin.
    + intros (earlier & later & Heq & _). by destruct earlier.
  - rewrite lotionValidatorsOf_snoc.
    destruct (object_set_spec (Client.lotionValidatorsOf l) (Client.lc_pub_key_value v)
                (Client.lc_voting_power v) IHnd) as (Hnd & Hin & _).
    split; [done|]. intros key power. rewrite Hin, IHin. split.
    + intros [[-> ->]|[Hne (earlier & later & -> & Hlater)]].
      * exists l, []. destruct v. split; [done|constructor].
      * exists earlier, (later ++ [v]). split; [by rewrite <- app_assoc|].
        apply Forall_app. split; [done|]. constructor; [congruence|constructor].
    + intros (earlier & later & Heq & Hlater).
      destruct later as [|u later _] using rev_ind.
      * apply app_inj_tail in Heq as [-> ->]. by left.
      * rewrite app_comm_cons, app_assoc in Heq. apply app_inj_tail in Heq as [-> ->].
        apply Forall_app in Hlater as [Hlater Hu]. apply Forall_cons in Hu as [Hu _].
        right. split; [congruence|]. by exists earlier, later.
Qed.

Lemma lotionValidatorsOf_distinct (validators : list Client.LightClientValidator) :
  NoDup (map Client.lc_pub_key_value validators) ->
  Client.lotionValidatorsOf validators = map entryOf validators.
Proof.
  induction validators as [|v l IH] using rev_ind; [done|].
  rewrite map_app. simpl. intros Hnd. apply NoDup_app in Hnd as (Hl & Hfresh & _).
  rewrite lotionValidatorsOf_snoc, IH by done.
  assert (Hnd : NoDup ((map entryOf l).*1)).
  { replace ((map entryOf l).*1) with (map Client.lc_pub_key_value l); [done|].
    clear. induction l; simpl; [done|]. by f_equal. }
  destruct (object_set_spec (map entryOf l) (Client.lc_pub_key_value v)
              (Client.lc_voting_power v) Hnd) as (_ & _ & Happend).
  rewrite Happend, map_app; [done|].
  intros Hin. apply list_elem_of_fmap in Hin as ([k p] & Heq & Hin). simpl in Heq. subst k.
  apply (list_elem_of_fmap entryOf) in Hin as (u & Hu & Hin).
  apply (Hfresh (Client.lc_pub_key_value u)).
  - by apply list_elem_of_fmap_2.
  - injection Hu as -> _. apply list_elem_of_here.
Qed.

Lemma witnessScriptAsm_selection (validators validators' : Reserve.ValidatorMap)
    (signatoryKeys : gmap string Buffer) :
  Reserve.getSignatorySet validators = Reserve.getSignatorySet validators' ->
  Reserve.witnessScriptAsm validators signatoryKeys
  = Reserve.witnessScriptAsm validators' signatoryKeys.
Proof.
  intros Hsel. unfold Reserve.witnessScriptAsm, Reserve.signatoriesOf. by rewrite Hsel.
Qed.

Section ClientAddress.
Context `{Client.SignerLibs} `{Reserve.BitcoinJs}.

(** The address the client derives from the light client's validator list
    (each validator listed once) is the one [getP2ssInfo] gives for a
    validator map with the same entries, in whatever order they were entered,
    and [createOutput] pays to the same script. *)
Theorem getCurrentP2ssAddress_agrees (lcValidators : list Client.LightClientValidator)
    (validators : Reserve.ValidatorMap) (signatoryKeys : gmap string Buffer)
    (network : Reserve.BitcoinNetwork) (address : string) :
  NoDup (map Client.lc_pub_key_value lcValidators) ->
  Permutation validators (map entryOf lcValidators) ->
  Client.getCurrentP2ssAddress signatoryKeys lcValidators network = inr address ->
  exists p2ss,
    Reserve.getP2ssInfo (Reserve.mkSignatorySet validators signatoryKeys) network
      = Ok (address, p2ss)
    /\ Reserve.createOutput validators signatoryKeys network
       = Ok (Reserve.p2wsh_output p2ss network)
    /\ address <> EmptyString.
Proof.
  intros Hnd Hperm. unfold Client.getCurrentP2ssAddress,
    Client.getSignatoryScriptHashFromPegZone, Reserve.getP2ssInfo, Reserve.createOutput,
    Reserve.createWitnessScript. simpl.
  rewrite (lotionValidatorsOf_distinct _ Hnd).
  rewrite (witnessScriptAsm_selection (map entryOf lcValidators) validators)
    by (symmetry; by apply getSignatorySet_insertion_order).
  destruct (Reserve.witnessScriptAsm validators signatoryKeys) as [asm|]; simpl;
    [|discriminate].
  destruct (String.eqb_spec (Reserve.p2wsh_address (Reserve.script_fromASM asm) network)
              EmptyString) as [|Hne]; [discriminate|].
  intros [= <-]. by eexists.
Qed.

End ClientAddress.

Lemma lotionValidatorsOf_last_wins_witness :
  (("A", 7) : string * Z) ∈ Client.lotionValidatorsOf
    [Client.mkLightClientValidator "A" 5; Client.mkLightClientValidator "B" 3;
     Client.mkLightClientValidator "A" 7].
Proof.
  apply (proj2 (lotionValidatorsOf_last_wins _)).
  exists [Client.mkLightClientValidator "A" 5; Client.mkLightClientValidator "B" 3], [].
  split; [reflexivity|constructor].
Defined.

Lemma getCurrentP2ssAddress_agrees_witness :
  exists address p2ss,
    Client.getCurrentP2ssAddress (H0 := Fixture.bitcoinjs)
      (<[Fixture.validatorB := Fixture.key33]> ∅)
      [Client.mkLightClientValidator "A" 20;
       Client.mkLightClientValidator Fixture.validatorB 10] Reserve.regtest = inr address
    /\ Reserve.getP2ssInfo (H := Fixture.bitcoinjs)
         (Reserve.mkSignatorySet [(Fixture.validatorB, 10); ("A"%string, 20)]
            (<[Fixture.validatorB := Fixture.key33]> ∅)) Reserve.regtest
       = Ok (address, p2ss).
Proof.
  assert (Hrun : exists address,
            Client.getCurrentP2ssAddress (H0 := Fixture.bitcoinjs)
              (<[Fixture.validatorB := Fixture.key33]> ∅)
              [Client.mkLightClientValidator "A" 20;
               Client.mkLightClientValidator Fixture.validatorB 10] Reserve.regtest
            = inr address).
  { eexists. vm_compute. reflexivity. }
  destruct Hrun as (address & Hrun). exists address.
  assert (Hnd : NoDup (map Client.lc_pub_key_value
                         [Client.mkLightClientValidator "A" 20;
                          Client.mkLightClientValidator Fixture.validatorB 10])).
  { apply (bool_decide_unpack _). vm_compute. exact I. }
  assert (Hperm : Permutation [(Fixture.validatorB, 10); ("A"%string, 20)]
                    (map entryOf [Client.mkLightClientValidator "A" 20;
                                  Client.mkLightClientValidator Fixture.validatorB 10])).
  { apply perm_swap. }
  destruct (getCurrentP2ssAddress_agrees (H0 := Fixture.bitcoinjs) _ _ _ _ _
              Hnd Hperm Hrun) as (p2ss & Hinfo & _).
  exists p2ss. split; [exact Hrun|exact Hinfo].
Defined.

(** ** A disbursal without signatories *)

Section NoSignatory.
Context `{Reserve.BitcoinJs}.


End NoSignatory.

